(** * Browser pool of the car-parts scraper (src/temp/app.py)

    Shallow embedding of [BrowserInstance], [BrowserPool] and the
    [/scrape] handler [scrape_barcode].  Python objects are modelled by
    references into a store: a [BrowserInstance] is the value a reference
    maps to, the pool registry [_instances] is a list of references, so
    that two threads that hold the same instance see the same updates.
    Time ([time.time()]) is an integer clock reading supplied by the
    caller of each operation; the outcome of the external Chrome process
    (does [Driver(...)] start, does [driver.title] answer) is an explicit
    argument. *)

From stdpp Require Import base gmap list strings pretty.
From Stdlib Require Import ZArith Ascii.
Open Scope Z_scope.

(* ------------------------------------------------------------------ *)
(** ** Configuration constants *)

Definition AUTODOC_TIMEOUT : N := 120.
Definition REALOEM_TIMEOUT : N := 300.
Definition POOL_MAX_INSTANCES : nat := 3.
Definition IDLE_KILL_AFTER : Z := 300.
Definition IDLE_CHECK_EVERY : Z := 60.

(* ------------------------------------------------------------------ *)
(** ** Processes and exceptions *)

(** Side effects on the operating system that the instance code performs:
    [driver.quit()] on a Chrome handle, and [kill -9 <pid>] on the
    chromedriver service process. *)
Inductive os_event :=
  | DriverQuit (h : nat)
  | KillPid (p : nat).

(** The operating system: the next fresh process handle and the log of
    teardown effects. *)
Record Os := mkOs {
  next_proc : nat;
  os_log : list os_event
}.

(** Outcome of [Driver(uc=True, headless=False)]: it raises, or it starts a
    Chrome process; the second flag says whether
    [self.driver.service.process.pid] could be read. *)
Inductive driver_outcome :=
  | DriverFails
  | DriverStarts (pid_readable : bool).

Inductive exn :=
  | RuntimeError (msg : string)
  | DriverError.

(* ------------------------------------------------------------------ *)
(** ** BrowserInstance *)

Record BrowserInstance := mkInst {
  id : nat;
  permanent : bool;
  locked : bool;                    (* self.lock.locked() *)
  driver : option nat;              (* self.driver *)
  wait : option nat;                (* self.wait, a WebDriverWait on driver *)
  autodoc_cookie_handled : bool;
  realoem_cookie_handled : bool;
  last_used : Z;
  alive : bool;                     (* self._alive *)
  service_pid : option nat          (* self._service_pid, absent = None *)
}.

(** [BrowserInstance.__init__], with the id the class counter hands out. *)
Definition new_instance (new_id : nat) (perm : bool) (now : Z) : BrowserInstance :=
  {| id := new_id; permanent := perm; locked := false; driver := None;
     wait := None; autodoc_cookie_handled := false;
     realoem_cookie_handled := false; last_used := now; alive := false;
     service_pid := None |}.

Definition set_locked (b : bool) (i : BrowserInstance) : BrowserInstance :=
  {| id := id i; permanent := permanent i; locked := b; driver := driver i;
     wait := wait i; autodoc_cookie_handled := autodoc_cookie_handled i;
     realoem_cookie_handled := realoem_cookie_handled i;
     last_used := last_used i; alive := alive i; service_pid := service_pid i |}.

Definition set_alive (b : bool) (i : BrowserInstance) : BrowserInstance :=
  {| id := id i; permanent := permanent i; locked := locked i; driver := driver i;
     wait := wait i; autodoc_cookie_handled := autodoc_cookie_handled i;
     realoem_cookie_handled := realoem_cookie_handled i;
     last_used := last_used i; alive := b; service_pid := service_pid i |}.

(** [self.autodoc_cookie_handled = False; self.realoem_cookie_handled = False] *)
Definition reset_cookie_flags (i : BrowserInstance) : BrowserInstance :=
  {| id := id i; permanent := permanent i; locked := locked i; driver := driver i;
     wait := wait i; autodoc_cookie_handled := false;
     realoem_cookie_handled := false;
     last_used := last_used i; alive := alive i; service_pid := service_pid i |}.

(** [touch]: [self.last_used = time.time()]. *)
Definition touch (now : Z) (i : BrowserInstance) : BrowserInstance :=
  {| id := id i; permanent := permanent i; locked := locked i; driver := driver i;
     wait := wait i; autodoc_cookie_handled := autodoc_cookie_handled i;
     realoem_cookie_handled := realoem_cookie_handled i;
     last_used := now; alive := alive i; service_pid := service_pid i |}.

(** [start]: [self.driver = Driver(...)] either raises before any field is
    assigned, or allocates a fresh Chrome handle (and a chromedriver service
    process next to it); then [wait], [_alive] and [_service_pid] are set. *)
Definition start (o : Os) (out : driver_outcome) (i : BrowserInstance)
    : Os * BrowserInstance * option exn :=
  match out with
  | DriverFails => (o, i, Some DriverError)
  | DriverStarts readable =>
      let h := next_proc o in
      let o' := {| next_proc := S (S h); os_log := os_log o |} in
      (o',
       {| id := id i; permanent := permanent i; locked := locked i;
          driver := Some h; wait := Some h;
          autodoc_cookie_handled := autodoc_cookie_handled i;
          realoem_cookie_handled := realoem_cookie_handled i;
          last_used := last_used i; alive := true;
          service_pid := if readable then Some (S h) else None |},
       None)
  end.

(** [quit]: never raises.  [_alive] is cleared first; a present driver is
    quit (errors swallowed) and dropped together with [wait]; a truthy
    service pid is force-killed and forgotten. *)
Definition quit (o : Os) (i : BrowserInstance) : Os * BrowserInstance :=
  let sp := service_pid i in
  let '(log1, drv, wt) :=
    match driver i with
    | Some h => (os_log o ++ [DriverQuit h], None, None)
    | None => (os_log o, driver i, wait i)
    end in
  let '(log2, sp') :=
    match sp with
    | Some p => if Nat.eqb p 0 then (log1, sp) else (log1 ++ [KillPid p], None)
    | None => (log1, sp)
    end in
  ({| next_proc := next_proc o; os_log := log2 |},
   {| id := id i; permanent := permanent i; locked := locked i;
      driver := drv; wait := wt;
      autodoc_cookie_handled := autodoc_cookie_handled i;
      realoem_cookie_handled := realoem_cookie_handled i;
      last_used := last_used i; alive := false; service_pid := sp' |}).

(** [is_alive]: [probe_ok] is whether [self.driver.title] answers. *)
Definition is_alive (probe_ok : bool) (i : BrowserInstance) : BrowserInstance * bool :=
  if negb (alive i) then (i, false)
  else match driver i with
       | None => (i, false)
       | Some _ => if probe_ok then (i, true) else (set_alive false i, false)
       end.

(** [revive]: [quit()], reset both cookie flags, [start()]. *)
Definition revive (o : Os) (out : driver_outcome) (i : BrowserInstance)
    : Os * BrowserInstance * option exn :=
  let '(o1, i1) := quit o i in
  start o1 out (reset_cookie_flags i1).

(** [threading.Lock.release()] raises [RuntimeError] on an unlocked lock. *)
Definition lock_release (i : BrowserInstance) : BrowserInstance * option exn :=
  if locked i then (set_locked false i, None)
  else (i, Some (RuntimeError "release unlocked lock")).

(** Non-blocking [lock.acquire(blocking=False)]. *)
Definition lock_try_acquire (i : BrowserInstance) : BrowserInstance * bool :=
  if locked i then (i, false) else (set_locked true i, true).

(** [BrowserPool.release]: touch, then release the lock, swallowing the
    [RuntimeError] of an already released lock.  Never raises. *)
Definition release_inst (now : Z) (i : BrowserInstance) : BrowserInstance :=
  let i1 := touch now i in
  match lock_release i1 with
  | (i2, None) => i2
  | (_, Some (RuntimeError _)) => i1
  | (i2, Some _) => i2
  end.

(* ------------------------------------------------------------------ *)
(** ** BrowserPool *)

(** The shared state: the OS, the heap of instance objects (keyed by their
    id, which the class counter makes unique), the registry
    [_instances] as an ordered list of references, the class counter
    [BrowserInstance._id_counter], and [_stopped]. *)
Record World := mkWorld {
  os : Os;
  store : gmap nat BrowserInstance;
  registry : list nat;
  id_counter : nat;
  stopped : bool
}.

Definition init_world : World :=
  {| os := {| next_proc := 1; os_log := [] |}; store := ∅; registry := [];
     id_counter := 0; stopped := false |}.

Definition set_store (st : gmap nat BrowserInstance) (w : World) : World :=
  {| os := os w; store := st; registry := registry w;
     id_counter := id_counter w; stopped := stopped w |}.

Definition set_os_store (o : Os) (st : gmap nat BrowserInstance) (w : World) : World :=
  {| os := o; store := st; registry := registry w;
     id_counter := id_counter w; stopped := stopped w |}.

Definition set_registry (regs : list nat) (w : World) : World :=
  {| os := os w; store := store w; registry := regs;
     id_counter := id_counter w; stopped := stopped w |}.

(** [list.remove(x)]: drop the first occurrence (the [in] test in front of
    every call in the source makes the absent case a no-op). *)
Fixpoint remove_first (x : nat) (l : list nat) : list nat :=
  match l with
  | [] => []
  | y :: t => if Nat.eqb x y then t else y :: remove_first x t
  end.

(** Scan of [acquire]: [for candidate in self._instances:
    if candidate.lock.acquire(blocking=False): inst = candidate; break]. *)
Fixpoint scan (st : gmap nat BrowserInstance) (cands : list nat) : option nat :=
  match cands with
  | [] => None
  | r :: rest =>
      match st !! r with
      | Some i => if locked i then scan st rest else Some r
      | None => scan st rest
      end
  end.

(** The block of [acquire] run under [with self._lock:].  Returns the new
    world, the instance obtained ([inst]), the new [spawned] flag and the
    reference of the temp instance created by this block, if any. *)
Definition acquire_section (now : Z) (spawned : bool) (w : World)
    : World * option nat * bool * option nat :=
  let pool_size := length (registry w) in
  match scan (store w) (registry w) with
  | Some r =>
      match store w !! r with
      | Some i => (set_store (<[r := set_locked true i]> (store w)) w, Some r, spawned, None)
      | None => (w, None, spawned, None)
      end
  | None =>
      if negb spawned && Nat.ltb pool_size POOL_MAX_INSTANCES then
        let nid := S (id_counter w) in
        let ni := set_locked true (new_instance nid false now) in
        ({| os := os w; store := <[nid := ni]> (store w);
            registry := registry w ++ [nid]; id_counter := nid;
            stopped := stopped w |}, None, true, Some nid)
      else (w, None, spawned, None)
  end.

(** One pass of the [while time.time() < deadline] loop, as seen by the
    calling thread: the clock reading of the loop test, the clock reading
    when the registry lock is taken, and what the other threads did to the
    shared state since the previous pass. *)
Record iteration := mkIter {
  it_check : Z;
  it_lock : Z;
  it_others : World -> World
}.

(** What the outside world answers after an instance is obtained:
    [driver.title] answers, the outcome of [Driver(...)] in [revive], and
    the clock reading of [touch]. *)
Record probe := mkProbe {
  pr_alive : bool;
  pr_revive : driver_outcome;
  pr_touch : Z
}.

Inductive acquire_result :=
  | Acquired (r : nat)
  | AcquireRaised (e : exn)
  | Pending.   (* the given passes ran out before the loop ended *)

(** The locks the calling thread of [acquire] takes itself. *)
Inductive lock_take :=
  | Scanned (r : nat)      (* candidate.lock.acquire(blocking=False) *)
  | PreLocked (r : nat).   (* new_inst.lock.acquire() of a spawned temp *)

Definition exhausted_error : exn :=
  RuntimeError "BrowserPool: no instance available within timeout".

(** [acquire] after an instance is obtained, outside the registry lock:
    probe, revive when dead (and reset the cookie flags), touch. *)
Definition post_acquire (pr : probe) (r : nat) (w : World) : World * acquire_result :=
  match store w !! r with
  | None => (w, Acquired r)
  | Some i =>
      let '(i1, ok) := is_alive (pr_alive pr) i in
      if ok then (set_store (<[r := touch (pr_touch pr) i1]> (store w)) w, Acquired r)
      else
        let '(o2, i2, e) := revive (os w) (pr_revive pr) i1 in
        match e with
        | Some ex => (set_os_store o2 (<[r := i2]> (store w)) w, AcquireRaised ex)
        | None =>
            (set_os_store o2
               (<[r := touch (pr_touch pr) (reset_cookie_flags i2)]> (store w)) w,
             Acquired r)
        end
  end.

Fixpoint acquire_loop (deadline : Z) (spawned : bool) (its : list iteration)
    (pr : probe) (w : World) : World * acquire_result * list lock_take :=
  match its with
  | [] => (w, Pending, [])
  | it :: rest =>
      if it_check it <? deadline then
        let w1 := it_others it w in
        let '(w2, got, sp', new) := acquire_section (it_lock it) spawned w1 in
        let taken := match new with Some n => [PreLocked n] | None => [] end in
        match got with
        | Some r =>
            let '(w3, res) := post_acquire pr r w2 in (w3, res, taken ++ [Scanned r])
        | None =>
            let '(w3, res, log) := acquire_loop deadline sp' rest pr w2 in
            (w3, res, taken ++ log)
        end
      else (w, AcquireRaised exhausted_error, [])
  end.

(** [BrowserPool.acquire(timeout)] called at clock reading [t0]. *)
Definition acquire (t0 timeout : Z) (its : list iteration) (pr : probe) (w : World)
    : World * acquire_result * list lock_take :=
  acquire_loop (t0 + timeout) false its pr w.

(** [BrowserPool.start]: the permanent instance is created, started,
    pre-locked (blocking acquire of a fresh, free lock) and appended. *)
Definition pool_start (now : Z) (out : driver_outcome) (w : World) : World * option exn :=
  let nid := S (id_counter w) in
  let perm := new_instance nid true now in
  match start (os w) out perm with
  | (o1, _, Some e) =>
      ({| os := o1; store := store w; registry := registry w; id_counter := nid;
          stopped := stopped w |}, Some e)
  | (o1, p1, None) =>
      ({| os := o1; store := <[nid := set_locked true p1]> (store w);
          registry := registry w ++ [nid]; id_counter := nid;
          stopped := stopped w |}, None)
  end.

(** [BrowserPool._start_instance], the background start of a spawned temp.
    On failure it is removed from the registry and quit; in both cases the
    pre-lock is released ([RuntimeError] swallowed). *)
Definition start_instance (r : nat) (out : driver_outcome) (w : World) : World :=
  match store w !! r with
  | None => w
  | Some i =>
      match start (os w) out i with
      | (o1, i1, None) =>
          set_os_store o1 (<[r := fst (lock_release i1)]> (store w)) w
      | (o1, i1, Some _) =>
          let regs := remove_first r (registry w) in
          let '(o2, i2) := quit o1 i1 in
          {| os := o2; store := <[r := fst (lock_release i2)]> (store w);
             registry := regs; id_counter := id_counter w; stopped := stopped w |}
      end
  end.

(** The idle reaper's selection test, on one registry entry. *)
Definition reapable (now : Z) (i : BrowserInstance) : bool :=
  negb (permanent i) && negb (locked i) && (IDLE_KILL_AFTER <? now - last_used i).

Definition reap_ref (now : Z) (st : gmap nat BrowserInstance) (r : nat) : bool :=
  match st !! r with Some i => reapable now i | None => false end.

(** What the reaper thread does, in order. *)
Inductive reaper_event :=
  | RegistryLock
  | Removed (r : nat)
  | RegistryUnlock
  | Quitted (r : nat).

(** Phase 1 of a reaper cycle, under [with self._lock:]: the list
    [to_kill] and the registry after [self._instances.remove(inst)] for each. *)
Definition reaper_phase1 (now : Z) (w : World) : World * list nat :=
  let to_kill := List.filter (reap_ref now (store w)) (registry w) in
  (set_registry (fold_left (fun l r => remove_first r l) to_kill (registry w)) w,
   to_kill).

(** [inst.quit()] on the instance a reference points to. *)
Definition quit_ref (r : nat) (w : World) : World :=
  match store w !! r with
  | Some i => let '(o, i') := quit (os w) i in set_os_store o (<[r := i']> (store w)) w
  | None => w
  end.

(** One iteration of [_idle_reaper] after its [time.sleep]. *)
Definition reaper_cycle (now : Z) (w : World) : World * list reaper_event :=
  let '(w1, to_kill) := reaper_phase1 now w in
  (fold_left (fun w' r => quit_ref r w') to_kill w1,
   [RegistryLock] ++ map Removed to_kill ++ [RegistryUnlock] ++ map Quitted to_kill).

(** [shutdown], phase 1 under the lock: set [_stopped] unless already set. *)
Definition shutdown_begin (w : World) : World * option (list nat) :=
  if stopped w then (w, None)
  else ({| os := os w; store := store w; registry := registry w;
           id_counter := id_counter w; stopped := true |}, Some (registry w)).

(** [shutdown], last phase under the lock: [self._instances.clear()]. *)
Definition shutdown_clear (w : World) : World := set_registry [] w.

(** [status] under the registry lock. *)
Definition count_insts (p : BrowserInstance -> bool) (w : World) : nat :=
  length (List.filter (fun r => match store w !! r with Some i => p i | None => false end)
                 (registry w)).

Definition status (w : World) : list (string * nat) :=
  [("total", length (registry w));
   ("busy", count_insts locked w);
   ("idle", count_insts (fun i => negb (locked i)) w);
   ("permanent", count_insts permanent w);
   ("temp", count_insts (fun i => negb (permanent i)) w)].

(** Operations of other threads on a single instance, outside the registry
    lock: the probe, revive and touch of [acquire], [release], the
    watchdog's or shutdown's or reaper's [quit], and the [lock.release()] at
    the end of the permanent instance's background warm-up. *)
Inductive inst_op :=
  | OpIsAlive (probe_ok : bool)
  | OpRevive (out : driver_outcome)
  | OpResetFlags
  | OpTouch (now : Z)
  | OpQuit
  | OpRelease (now : Z)
  | OpLockRelease.

Definition apply_inst_op (op : inst_op) (o : Os) (i : BrowserInstance)
    : Os * BrowserInstance :=
  match op with
  | OpIsAlive b => (o, fst (is_alive b i))
  | OpRevive out => let '(o', i', _) := revive o out i in (o', i')
  | OpResetFlags => (o, reset_cookie_flags i)
  | OpTouch now => (o, touch now i)
  | OpQuit => quit o i
  | OpRelease now => (o, release_inst now i)
  | OpLockRelease => (o, fst (lock_release i))
  end.

Definition inst_op_world (r : nat) (op : inst_op) (w : World) : World :=
  match store w !! r with
  | Some i => let '(o, i') := apply_inst_op op (os w) i in
              set_os_store o (<[r := i']> (store w)) w
  | None => w
  end.

(** Atomic steps of the running service, any thread. *)
Inductive pool_step : World -> World -> Prop :=
  | step_acquire_section now spawned w :
      pool_step w (fst (fst (fst (acquire_section now spawned w))))
  | step_inst_op r op w : pool_step w (inst_op_world r op w)
  | step_start_instance r out w : pool_step w (start_instance r out w)
  | step_reaper_phase1 now w : pool_step w (fst (reaper_phase1 now w))
  | step_shutdown_begin w : pool_step w (fst (shutdown_begin w))
  | step_shutdown_clear w : pool_step w (shutdown_clear w).

(** States of the service: the lifespan hook runs [pool.start()] once on the
    fresh pool before any request is served; then any interleaving. *)
Inductive reachable : World -> Prop :=
  | reach_start now out :
      snd (pool_start now out init_world) = None ->
      reachable (fst (pool_start now out init_world))
  | reach_step w w' : reachable w -> pool_step w w' -> reachable w'.

(* ------------------------------------------------------------------ *)
(** ** The [/scrape] handler *)

Record ProductResponse := mkResp {
  success : bool;
  barcode : string;
  scraper : string;
  data : option nat;
  error : option string
}.

(** What [scrape_barcode] ends with: an [HTTPException], a returned
    [ProductResponse], an exception it does not catch, or still waiting in
    [pool.acquire]. *)
Inductive http_response :=
  | HTTPException (status_code : nat) (detail : string)
  | Respond (r : ProductResponse)
  | Uncaught (e : exn)
  | Waiting.

(** [_run_scrape(inst, barcode, scraper)] returns a response or raises. *)
Inductive run_outcome :=
  | RunReturns (r : ProductResponse)
  | RunRaises (msg : string).

(** [str.isspace()] on one ASCII character, the characters [str.strip()]
    removes: tab to carriage return (9 to 13), the separators 28 to 31 and
    the space. *)
Definition is_space (c : Ascii.ascii) : bool :=
  match Ascii.nat_of_ascii c with
  | 9 | 10 | 11 | 12 | 13 | 28 | 29 | 30 | 31 | 32 => true
  | _ => false
  end%nat.

Fixpoint lstrip (s : string) : string :=
  match s with
  | EmptyString => EmptyString
  | String c t => if is_space c then lstrip t else s
  end.

Fixpoint rstrip (s : string) : string :=
  match s with
  | EmptyString => EmptyString
  | String c t =>
      match rstrip t with
      | EmptyString => if is_space c then EmptyString else String c EmptyString
      | t' => String c t'
      end
  end.

Definition strip (s : string) : string := rstrip (lstrip s).

(** [str.lower()] on ASCII letters. *)
Definition lower_char (c : Ascii.ascii) : Ascii.ascii :=
  let n := Ascii.nat_of_ascii c in
  if (65 <=? n)%nat && (n <=? 90)%nat then Ascii.ascii_of_nat (n + 32)%nat else c.

Fixpoint lower (s : string) : string :=
  match s with
  | EmptyString => EmptyString
  | String c t => String (lower_char c) (lower t)
  end.

(** [f"Scrape timed out after {timeout}s"] *)
Definition timeout_message (timeout : N) : string :=
  "Scrape timed out after " +:+ pretty timeout +:+ "s".

(** [timeout = REALOEM_TIMEOUT if scraper == "realoem" else AUTODOC_TIMEOUT] *)
Definition scrape_timeout (sc : string) : N :=
  if String.eqb sc "realoem" then REALOEM_TIMEOUT else AUTODOC_TIMEOUT.

(** [scrape_barcode(request)]: [acq] is how [pool.acquire(timeout=30)]
    ended, [run] how [_run_scrape] ended, and [timed_out] whether the
    watchdog had set its event when the handler tests [timed_out.is_set()]
    (the watchdog sets it before it quits the driver). *)
Definition scrape_barcode (req_barcode req_scraper : string) (acq : acquire_result)
    (run : run_outcome) (timed_out : bool) : http_response :=
  let bc := strip req_barcode in
  let sc := lower req_scraper in
  if String.eqb bc "" then HTTPException 400 "Barcode cannot be empty"
  else if negb (String.eqb sc "autodoc" || String.eqb sc "realoem") then
    HTTPException 400 "Scraper must be 'autodoc' or 'realoem'"
  else
    let timeout := scrape_timeout sc in
    let timeout_resp :=
      {| success := false; barcode := bc; scraper := sc; data := None;
         error := Some (timeout_message timeout) |} in
    match acq with
    | Pending => Waiting
    | AcquireRaised (RuntimeError _) =>
        HTTPException 503 "All scrapers busy, please retry in a moment"
    | AcquireRaised e => Uncaught e
    | Acquired _ =>
        match run with
        | RunReturns result =>
            if negb (success result) && timed_out then Respond timeout_resp
            else Respond result
        | RunRaises msg =>
            if timed_out then Respond timeout_resp
            else Respond {| success := false; barcode := bc; scraper := sc;
                            data := None; error := Some msg |}
        end
    end.

Example timeout_message_autodoc :
  timeout_message AUTODOC_TIMEOUT = "Scrape timed out after 120s".
Proof. vm_compute. reflexivity. Qed.

Example strip_lower_example :
  strip "  3411 " = "3411" /\ lower "RealOEM" = "realoem".
Proof. vm_compute. split; reflexivity. Qed.

(** The error response [scrape_barcode] builds for a watchdog timeout. *)
Definition timeout_response (bc sc : string) : ProductResponse :=
  {| success := false; barcode := bc; scraper := sc; data := None;
     error := Some (timeout_message (scrape_timeout sc)) |}.

(** [self._alive] is only set while a driver is present. *)
Definition alive_inv (i : BrowserInstance) : Prop := alive i = true -> driver i <> None.

(* ------------------------------------------------------------------ *)
(** ** Concrete states, logs and predicates used by the properties *)

(** A freshly started instance, used by the witnesses below. *)
Definition os0 : Os := {| next_proc := 1; os_log := [] |}.
Definition started_inst : BrowserInstance :=
  snd (fst (start os0 (DriverStarts true) (new_instance 1 false 0))).
Definition os1 : Os := fst (fst (start os0 (DriverStarts true) (new_instance 1 false 0))).


(** Number of temp instances a call of [acquire] pre-locked, i.e. spawned. *)
Definition prelocks (log : list lock_take) : nat :=
  length (List.filter (fun e => match e with PreLocked _ => true | Scanned _ => false end) log).

(** No lock obtained by the scan. *)
Definition scanned_none (log : list lock_take) : bool :=
  forallb (fun e => match e with Scanned _ => false | PreLocked _ => true end) log.

(** The service right after [pool.start()] at clock 0, and once the
    permanent instance's background warm-up has released its lock. *)
Definition w_started : World := fst (pool_start 0 (DriverStarts true) init_world).
Definition w_ready : World := inst_op_world 1 OpLockRelease w_started.

(** A pass of the loop during which no other thread runs. *)
Definition quiet_pass (t_check t_lock : Z) : iteration := mkIter t_check t_lock (fun w => w).

Definition probe_alive : probe := mkProbe true (DriverStarts true) 2.

(** The instance a reference points to has been quit. *)
Definition quit_done (r : nat) (w : World) : Prop :=
  exists i, store w !! r = Some i /\ alive i = false /\ driver i = None.

(** Every registry entry is an instance object. *)
Definition wf_registry (w : World) : Prop :=
  Forall (fun r => is_Some (store w !! r)) (registry w).

(** Two requests arrive while the permanent instance still warms up: each
    spawns one temp instance, and the registry reaches the cap. *)
Definition w_full : World :=
  fst (fst (fst (acquire_section 2 false
    (fst (fst (fst (acquire_section 1 false w_started))))))).

(* ------------------------------------------------------------------ *)
(** ** More of the pool: shutdown, orphan sweep, invariants *)

(** [BrowserPool.shutdown]: under the lock, return at once if already
    stopped, else set [_stopped] and snapshot the registry; quit every
    snapshotted instance outside the lock; clear the registry under the
    lock.  (The closing [_kill_orphaned_chromedrivers()] only touches
    processes outside the pool; it is [kill_orphaned_chromedrivers].) *)
Definition shutdown (w : World) : World :=
  match shutdown_begin w with
  | (w1, None) => w1
  | (w1, Some snap) => shutdown_clear (fold_left (fun w' r => quit_ref r w') snap w1)
  end.

(** The whitespace of [str.split()] and [str.strip()] with no argument,
    the same as [is_space]. *)
Definition py_space (c : Ascii.ascii) : bool := is_space c.

Fixpoint py_lstrip (s : string) : string :=
  match s with
  | EmptyString => EmptyString
  | String c t => if py_space c then py_lstrip t else s
  end.

Fixpoint py_rstrip (s : string) : string :=
  match s with
  | EmptyString => EmptyString
  | String c t =>
      match py_rstrip t with
      | EmptyString => if py_space c then EmptyString else String c EmptyString
      | t' => String c t'
      end
  end.

(** [str.strip()] with no argument. *)
Definition py_strip (s : string) : string := py_rstrip (py_lstrip s).

(** [str.split()] with no argument: maximal runs of non-whitespace. *)
Fixpoint split_ws_aux (cur : string) (s : string) : list string :=
  match s with
  | EmptyString => if String.eqb cur "" then [] else [cur]
  | String c t =>
      if py_space c then (if String.eqb cur "" then [] else [cur]) ++ split_ws_aux "" t
      else split_ws_aux (cur +:+ String c EmptyString) t
  end.

Definition split_ws (s : string) : list string := split_ws_aux "" s.

Definition orphan_targets : list string := ["chromedriver"; "Google Chrome for Testing"].

(** The pids one target's [pgrep -f] output yields, without the current
    process: [[p for p in result.stdout.strip().split() if p]], then
    [[p for p in pids if p != current_pid]]. *)
Definition orphan_pids (current_pid stdout : string) : list string :=
  List.filter (fun p => negb (String.eqb p current_pid))
    (List.filter (fun p => negb (String.eqb p "")) (split_ws (py_strip stdout))).

(** [_kill_orphaned_chromedrivers]: [pgrep t] is the stdout of
    [pgrep -f t], or [None] when [subprocess.run] raised (the target is
    then skipped).  Returns the pids given to [kill -9], in order. *)
Definition kill_orphaned_chromedrivers (pgrep : string -> option string)
    (current_pid : string) : list string :=
  flat_map (fun t => match pgrep t with
                     | Some out => orphan_pids current_pid out
                     | None => []
                     end) orphan_targets.

(** The permanent-instance test of [status()], on one reference. *)
Definition perm_ref (st : gmap nat BrowserInstance) (r : nat) : bool :=
  match st !! r with Some i => permanent i | None => false end.

(** What every state of the running service satisfies: each registry entry
    is an instance object, no object is in the registry twice, an object's
    key is its [id] and was handed out by the class counter, and at most
    one registry entry is permanent. *)
Definition pool_inv (w : World) : Prop :=
  wf_registry w /\ NoDup (registry w) /\
  (forall r i, store w !! r = Some i -> id i = r /\ (1 <= r <= id_counter w)%nat) /\
  (length (List.filter (perm_ref (store w)) (registry w)) <= 1)%nat.

(* ------------------------------------------------------------------ *)
(** ** The autodoc image pipeline and [get_image] *)

(** [s.split(sep)] for a one-character separator: every occurrence
    splits, empty pieces are kept, the result is never empty. *)
Fixpoint split_on (sep : Ascii.ascii) (s : string) : list string :=
  match s with
  | EmptyString => [""]
  | String c t =>
      let r := split_on sep t in
      if Ascii.eqb c sep then "" :: r
      else match r with
           | x :: rest => String c x :: rest
           | [] => [String c EmptyString]
           end
  end.

(** [ch in s] for a one-character [ch]. *)
Fixpoint has_char (ch : Ascii.ascii) (s : string) : bool :=
  match s with
  | EmptyString => false
  | String c t => Ascii.eqb c ch || has_char ch t
  end.

(** [s.replace(a, b)] for one-character [a] and [b]. *)
Fixpoint replace_char (a b : Ascii.ascii) (s : string) : string :=
  match s with
  | EmptyString => EmptyString
  | String c t => String (if Ascii.eqb c a then b else c) (replace_char a b t)
  end.

(** [barcode.replace(" ", "_").replace("/", "-").replace("\\", "-")], in
    [scrape_product_details] and in [get_image]. *)
Definition sanitize_barcode (barcode : string) : string :=
  replace_char "\"%char "-"%char
    (replace_char "/"%char "-"%char (replace_char " "%char "_"%char barcode)).

(** [f"images/{sanitized_barcode}"] *)
Definition images_folder (barcode : string) : string :=
  "images/" +:+ sanitize_barcode barcode.

(** The extension of a downloaded image:
    [url_path = img_url.split("?")[0]],
    [path_basename = url_path.split("/")[-1]], then
    [("." + path_basename.rsplit(".", 1)[-1]) if "." in path_basename else ".jpg"]
    (the last piece of [rsplit(".", 1)] is the last piece of [split(".")]). *)
Definition image_ext (img_url : string) : string :=
  let url_path := List.hd "" (split_on "?"%char img_url) in
  let path_basename := List.last (split_on "/"%char url_path) "" in
  if has_char "."%char path_basename
  then "." +:+ List.last (split_on "."%char path_basename) ""
  else ".jpg".

(** [f"{images_folder}/image_{n}{ext}"] *)
Definition image_filename (folder : string) (n : Z) (ext : string) : string :=
  folder +:+ "/image_" +:+ pretty n +:+ ext.

(** How one [requests.get] of the download loop ends: it raises, it
    answers with a status code, or (status 200) [open(filename, "wb")]
    raises. *)
Inductive dl_outcome :=
  | DlRaises
  | DlStatus (code : Z)
  | DlOpenFails.

Definition dl_saved (fetch : string -> dl_outcome) (u : string) : bool :=
  match fetch u with DlStatus code => Z.eqb code 200 | _ => false end.

(** The download loop of [scrape_product_details]: the files written, in
    order, and the final [downloaded_count]. *)
Fixpoint download_images (folder : string) (fetch : string -> dl_outcome)
    (downloaded_count : Z) (image_urls : list string) : list string * Z :=
  match image_urls with
  | [] => ([], downloaded_count)
  | img_url :: rest =>
      match fetch img_url with
      | DlStatus code =>
          if Z.eqb code 200 then
            let filename := image_filename folder (downloaded_count + 1) (image_ext img_url) in
            let '(files, n) := download_images folder fetch (downloaded_count + 1) rest in
            (filename :: files, n)
          else download_images folder fetch downloaded_count rest
      | _ => download_images folder fetch downloaded_count rest
      end
  end.

(** [_best_url_from_srcset]: [None] for a missing or empty attribute;
    else the first token of the last non-blank comma-separated entry. *)
Definition best_url_from_srcset (srcset : option string) : option string :=
  match srcset with
  | None => None
  | Some s =>
      if String.eqb s "" then None
      else
        let parts := List.map py_strip
                       (List.filter (fun p => negb (String.eqb (py_strip p) "")) (split_on ","%char s)) in
        (fix go (ps : list string) : option string :=
           match ps with
           | [] => None
           | part :: rest =>
               match split_ws part with
               | tok :: _ => Some tok
               | [] => go rest
               end
           end) (List.rev parts)
  end.

(** One image element: its [srcset], [data-srcset] and [src] attributes
    ([get_attribute] answers [None] for a missing one). *)
Record img_elem := mkImg {
  img_srcset : option string;
  img_data_srcset : option string;
  img_src : option string
}.

(** The [or] chain choosing an element's URL: [_best_url_from_srcset]
    answers [None] or a non-empty string, [src] may be [""]. *)
Definition img_candidate (e : img_elem) : option string :=
  match best_url_from_srcset (img_srcset e) with
  | Some u => Some u
  | None =>
      match best_url_from_srcset (img_data_srcset e) with
      | Some u => Some u
      | None => img_src e
      end
  end.

(** The collection loop: [if img_url and img_url.startswith("http") and
    img_url not in seen_urls], with [seen_urls] the URLs kept so far. *)
Fixpoint collect_image_urls_go (seen : list string) (elems : list img_elem) : list string :=
  match elems with
  | [] => []
  | e :: rest =>
      match img_candidate e with
      | Some u =>
          if negb (String.eqb u "") && String.prefix "http" u &&
             negb (existsb (String.eqb u) seen)
          then u :: collect_image_urls_go (seen ++ [u]) rest
          else collect_image_urls_go seen rest
      | None => collect_image_urls_go seen rest
      end
  end.

Definition collect_image_urls (elems : list img_elem) : list string :=
  collect_image_urls_go [] elems.

(** [os.path.join(a, b)] (posixpath) for two components. *)
Definition os_path_join (a b : string) : string :=
  if String.prefix "/" b then b
  else if String.eqb a "" || String.eqb (String.substring (String.length a - 1) 1 a) "/"
  then a +:+ b
  else a +:+ "/" +:+ b.

Definition image_exts : list string := [".jpg"; ".jpeg"; ".png"; ".webp"].

Inductive image_response :=
  | FileResponse (path : string)
  | ImageHTTPException (status_code : nat) (detail : string).

(** [get_image(barcode, image_number)]: [exists] is [os.path.exists]. *)
Definition get_image (exists_ : string -> bool) (barcode : string) (image_number : Z)
    : image_response :=
  let image_folder := "images/" +:+ sanitize_barcode barcode in
  (fix go (exts : list string) : image_response :=
     match exts with
     | [] => ImageHTTPException 404 "Image not found"
     | ext :: rest =>
         let image_path := os_path_join image_folder ("image_" +:+ pretty image_number +:+ ext) in
         if exists_ image_path then FileResponse image_path else go rest
     end) image_exts.

(* ------------------------------------------------------------------ *)
(** ** The RealOEM scraper *)

(** [re.sub(r'\D', '', barcode)] on ASCII text: the decimal digits, in order. *)
Definition is_digit (c : Ascii.ascii) : bool :=
  (48 <=? Ascii.nat_of_ascii c)%nat && (Ascii.nat_of_ascii c <=? 57)%nat.

Fixpoint keep_digits (s : string) : string :=
  match s with
  | EmptyString => EmptyString
  | String c t => if is_digit c then String c (keep_digits t) else keep_digits t
  end.

(** [needle in hay] for strings. *)
Fixpoint str_contains (needle hay : string) : bool :=
  String.prefix needle hay ||
  match hay with
  | EmptyString => false
  | String _ t => str_contains needle t
  end.

(** [s.replace(a, "")] for a one-character [a]. *)
Fixpoint remove_char (a : Ascii.ascii) (s : string) : string :=
  match s with
  | EmptyString => EmptyString
  | String c t => if Ascii.eqb c a then remove_char a t else String c (remove_char a t)
  end.

(** [f"https://www.realoem.com/bmw/enUS/partxref?q={numeric_barcode}"] *)
Definition realoem_search_url (numeric_barcode : string) : string :=
  "https://www.realoem.com/bmw/enUS/partxref?q=" +:+ numeric_barcode.

(** What the browser answers during one [scrape_realoem_barcode] call.
    A navigation ([driver.get]) loads or raises with an exception type
    name and message.  [find_element] answers the element's text or
    raises ([None]).  The [dt]/[dd] and link loops are given by the
    entries they read before they ended, by exhaustion or by a caught
    exception.  [aggressive_popup_killer] and the [WebDriverWait]s
    swallow every exception and do not change what is returned. *)
Record realoem_site := mkSite {
  site_search_nav : option (string * string);   (* driver.get(url) *)
  site_error_div : option string;               (* div.error.vs2 *)
  site_h1 : option string;                      (* div.content h1 *)
  site_h2 : option string;                      (* div.content h2 *)
  site_dl : list (string * string);             (* zip(dt, dd) texts *)
  site_links : list (string * option string);   (* link text, href *)
  site_vehicle_nav : option (string * string);  (* driver.get(first_vehicle_url) *)
  site_first_li : option string                 (* ul li:first-child *)
}.

(** The dict [scrape_realoem_barcode] returns: the failure dict
    [{"success": False, "error": ...}] or the data dict (also used for a
    part that is not found). *)
Inductive realoem_result :=
  | ROFail (error : string)
  | ROData (part_number description : string)
      (price from_date to_date weight : option string)
      (vehicle_count : nat) (first_vehicle_tags : option string).

(** [v or None] for a value that is [None] or a string. *)
Definition or_none (v : option string) : option string :=
  match v with
  | Some EmptyString => None
  | _ => v
  end.

(** [dt.text.replace(":", "").strip()] *)
Definition detail_key (dt : string) : string := py_strip (remove_char ":"%char dt).

(** [dd.text.strip() if dd.text.strip() else "-"] *)
Definition detail_value (dd : string) : string :=
  if String.eqb (py_strip dd) "" then "-" else py_strip dd.

(** The [part_details] dict after the loop [part_details[key] = value]. *)
Definition part_details (dl : list (string * string)) : gmap string string :=
  fold_left (fun m kv => <[detail_key kv.1 := detail_value kv.2]> m) dl ∅.

(** [full_text = first_li.text.strip()], then
    [full_text.split(':')[0].strip() if ':' in full_text else full_text]. *)
Definition vehicle_tags_of (text : string) : string :=
  let full_text := py_strip text in
  if has_char ":"%char full_text
  then py_strip (List.hd "" (split_on ":"%char full_text))
  else full_text.

(** [f"{error_type}: {error_msg}"] with
    [error_msg = str(e).split('\n')[0][:200]]. *)
Definition error_report (error_type msg : string) : string :=
  error_type +:+ ": " +:+ String.substring 0 200 (List.hd "" (split_on "010"%char msg)).

(** [scrape_realoem_barcode(inst, barcode)]: the URLs given to
    [driver.get], in order ([None] for an [href] that is [None]), and the
    returned dict. *)
Definition scrape_realoem_barcode (site : realoem_site) (barcode : string)
    : list (option string) * realoem_result :=
  let numeric_barcode := keep_digits barcode in
  if String.eqb numeric_barcode "" then
    ([], ROFail "Invalid barcode - no numeric digits found")
  else
    let url := Some (realoem_search_url numeric_barcode) in
    match site_search_nav site with
    | Some (ty, msg) => ([url], ROFail (error_report ty msg))
    | None =>
        let not_found :=
          match site_error_div site with
          | Some t =>
              let error_text := py_strip t in
              if str_contains "not found" (lower error_text) then Some error_text else None
          | None => None
          end in
        match not_found with
        | Some error_text =>
            ([url], ROData "NOT FOUND" error_text None None None None 0 None)
        | None =>
            match site_h1 site, site_h2 site with
            | Some part_number, Some description =>
                let pd := part_details (site_dl site) in
                let vehicle_links_list := site_links site in
                let result (vehicle_tags : string) :=
                  ROData part_number description
                    (or_none (pd !! "Price")) (or_none (pd !! "From"))
                    (or_none (pd !! "To")) (or_none (pd !! "Weight"))
                    (length vehicle_links_list)
                    (if String.eqb vehicle_tags "" then None else Some vehicle_tags) in
                match vehicle_links_list with
                | [] => ([url], result "")
                | (_, first_vehicle_url) :: _ =>
                    match site_vehicle_nav site with
                    | Some (ty, msg) => ([url; first_vehicle_url], ROFail (error_report ty msg))
                    | None =>
                        ([url; first_vehicle_url],
                         result (match site_first_li site with
                                 | Some t => vehicle_tags_of t
                                 | None => "N/A"
                                 end))
                    end
                end
            | _, _ => ([url], ROFail "Content failed to load (timeout or popup blocking)")
            end
        end
    end.

(** A [ProductResponse] of the RealOEM branch; [data] is the returned dict. *)
Record RealoemResponse := mkRoResp {
  ro_success : bool;
  ro_barcode : string;
  ro_scraper : string;
  ro_data : option realoem_result;
  ro_error : option string
}.

(** The [scraper == "realoem"] branch of [_run_scrape]:
    [result.get("success") == False or result.get("error")] holds exactly
    for the failure dict, whose ["error"] is then the response's error. *)
Definition run_scrape_realoem (site : realoem_site) (bc : string) : RealoemResponse :=
  match snd (scrape_realoem_barcode site bc) with
  | ROFail e => {| ro_success := false; ro_barcode := bc; ro_scraper := "realoem";
                   ro_data := None; ro_error := Some e |}
  | d => {| ro_success := true; ro_barcode := bc; ro_scraper := "realoem";
            ro_data := Some d; ro_error := None |}
  end.

(** The value [part_details.get(k)] reads: the value of the last row whose
    key is [k], if any. *)
Definition last_detail (dl : list (string * string)) (k : string) : option string :=
  option_map (fun kv => detail_value kv.2)
    (List.find (fun kv => String.eqb (detail_key kv.1) k) (rev dl)).

(** A result page: the part is found, two details rows name the price (the
    second wins), the weight is blank, and two vehicles are listed. *)
Definition realoem_sample_site : realoem_site :=
  {| site_search_nav := None;
     site_error_div := None;
     site_h1 := Some "51117379530";
     site_h2 := Some "Bracket";
     site_dl := [("Price:", " 12.50 "); ("Weight", " "); ("Price", "13.10")];
     site_links := [("E90 320i", Some "https://www.realoem.com/bmw/enUS/showparts?id=1");
                    ("E91 320i", None)];
     site_vehicle_nav := None;
     site_first_li := Some " E90 320i: Sedan " |}.

(* ------------------------------------------------------------------ *)
(** ** Autodoc search results and warm-up *)

(** A link element: its [href] and [data-link] attributes. *)
Record link_elem := mkLink {
  link_href : option string;
  link_data_link : option string
}.

(** A listing item: what [find_element] answers on it for
    [.listing-item__name], for [a.listing-item__name, [data-link]] and for
    the tag [a] ([None]: it raises). *)
Record listing_item := mkItem {
  item_name : option link_elem;
  item_alt : option link_elem;
  item_a : option link_elem
}.

(** [a or b] for two values that are [None] or a string. *)
Definition py_or (a b : option string) : option string :=
  match a with
  | Some (String _ _) => a
  | _ => b
  end.

(** [get_first_product_link(inst, barcode)]: [listing_items] are the
    [.listing-item__wrap] elements, [alt_items] the elements of the
    alternative selector (only looked up when there are no listing items).
    The last [find_element] raising is caught by the outer [except], which
    returns [None]. *)
Definition get_first_product_link (listing_items alt_items : list listing_item)
    : option string :=
  let items := match listing_items with [] => alt_items | _ => listing_items end in
  match items with
  | [] => None
  | first_item :: _ =>
      let title_link :=
        match item_name first_item with
        | Some l => Some l
        | None => match item_alt first_item with
                  | Some l => Some l
                  | None => item_a first_item
                  end
        end in
      match title_link with
      | None => None
      | Some l =>
          match py_or (link_href l) (link_data_link l) with
          | Some href =>
              if has_char "#"%char href then Some (List.hd "" (split_on "#"%char href))
              else Some href
          | None => None
          end
      end
  end.

Definition set_autodoc_cookie_handled (b : bool) (i : BrowserInstance) : BrowserInstance :=
  {| id := id i; permanent := permanent i; locked := locked i; driver := driver i;
     wait := wait i; autodoc_cookie_handled := b;
     realoem_cookie_handled := realoem_cookie_handled i;
     last_used := last_used i; alive := alive i; service_pid := service_pid i |}.

(** [_handle_cookies(inst)]: nothing when the flag is set; otherwise the
    flag is set whether the consent button was clicked or the wait raised
    (every exception is caught).  Also returns whether a click happened. *)
Definition handle_cookies (button_clicked : bool) (i : BrowserInstance)
    : BrowserInstance * bool :=
  if autodoc_cookie_handled i then (i, false)
  else (set_autodoc_cookie_handled true i, button_clicked).

Definition autodoc_home : string := "https://www.autodoc.co.uk/".

(** [warmup_autodoc()]: [nav_ok] says whether
    [driver.get("https://www.autodoc.co.uk/")] returned; when it raises the
    exception leaves the method.  [_wait_for_cloudflare] catches every
    exception of its loop and only returns a flag that is ignored.
    Returns the instance, the pages navigated to and whether it raised. *)
Definition warmup_autodoc (nav_ok button_clicked : bool) (i : BrowserInstance)
    : BrowserInstance * list string * bool :=
  if autodoc_cookie_handled i then (i, [], false)
  else if nav_ok then (fst (handle_cookies button_clicked i), [autodoc_home], false)
  else (i, [autodoc_home], true).

(** Successive [warmup_autodoc()] calls on one instance (one per autodoc
    request), each given how its navigation and cookie wait end: the final
    instance and all pages navigated to. *)
Fixpoint warmups (calls : list (bool * bool)) (i : BrowserInstance)
    : BrowserInstance * list string :=
  match calls with
  | [] => (i, [])
  | (nav_ok, clicked) :: rest =>
      let '(i1, navs, _) := warmup_autodoc nav_ok clicked i in
      let '(i2, navs') := warmups rest i1 in
      (i2, navs ++ navs')
  end.

(* ================================================================== *)
(** * Properties *)

(* ------------------------------------------------------------------ *)
(** ** Instance lifecycle *)

Lemma quit_fields (o : Os) (i : BrowserInstance) :
  id (snd (quit o i)) = id i /\ permanent (snd (quit o i)) = permanent i /\
  locked (snd (quit o i)) = locked i /\ last_used (snd (quit o i)) = last_used i /\
  autodoc_cookie_handled (snd (quit o i)) = autodoc_cookie_handled i /\
  realoem_cookie_handled (snd (quit o i)) = realoem_cookie_handled i /\
  alive (snd (quit o i)) = false /\ driver (snd (quit o i)) = None /\
  next_proc (fst (quit o i)) = next_proc o /\
  (forall h, driver i = Some h -> In (DriverQuit h) (os_log (fst (quit o i)))).
Proof.
  destruct i as [id0 perm0 lk0 [h|] wt0 ad0 ro0 lu0 al0 [p|]]; unfold quit; simpl;
    try destruct (Nat.eqb p 0); simpl;
    repeat split; intros h' Hh'; try discriminate; injection Hh' as <-;
    rewrite ?in_app_iff; simpl; tauto.
Qed.

(** C10: [_alive] implies a driver, kept by [start], [quit], [is_alive] and
    [revive]; [is_alive()] answers [False] on a never started instance and
    right after [quit()], which also leaves no driver. *)
Theorem instance_ops_keep_alive_inv (i : BrowserInstance) (Hinv : alive_inv i) :
  (forall o out, alive_inv (snd (fst (start o out i)))) /\
  (forall o, alive_inv (snd (quit o i))) /\
  (forall b, alive_inv (fst (is_alive b i))) /\
  (forall o out, alive_inv (snd (fst (revive o out i)))) /\
  (forall n perm now b, snd (is_alive b (new_instance n perm now)) = false) /\
  (forall o j b, snd (is_alive b (snd (quit o j))) = false /\
                 fst (is_alive b (snd (quit o j))) = snd (quit o j) /\
                 driver (snd (quit o j)) = None).
Proof.
  unfold alive_inv in *.
  split; [|split; [|split; [|split; [|split]]]].
  - intros o [|rd]; simpl; [exact Hinv | intros _; discriminate].
  - intros o. destruct (quit_fields o i) as (_&_&_&_&_&_&Ha&_). rewrite Ha. discriminate.
  - intros b. unfold is_alive.
    destruct (alive i) eqn:Ha; simpl; [|rewrite Ha; discriminate].
    destruct (driver i) as [h|] eqn:Hd; simpl; [|rewrite Ha, Hd; exact Hinv].
    destruct b; simpl; [rewrite Hd; discriminate | discriminate].
  - intros o [|rd]; unfold revive; destruct (quit o i) as [o1 i1] eqn:Hq; simpl.
    + pose proof (quit_fields o i) as (_&_&_&_&_&_&Ha&_). rewrite Hq in Ha. simpl in Ha.
      rewrite Ha. discriminate.
    + intros _. discriminate.
  - intros n perm now b. reflexivity.
  - intros o j b. destruct (quit_fields o j) as (_&_&_&_&_&_&Ha&Hd&_).
    unfold is_alive. rewrite Ha. simpl. auto.
Qed.

Lemma instance_ops_keep_alive_inv_witness :
  alive_inv started_inst /\
  alive_inv (snd (fst (revive os0 (DriverStarts true) started_inst))) /\
  snd (is_alive true (snd (quit os0 started_inst))) = false.
Proof.
  assert (H : alive_inv started_inst) by (unfold alive_inv; vm_compute; discriminate).
  destruct (instance_ops_keep_alive_inv started_inst H) as (_&_&_&Hr&_&Hq).
  split; [exact H | split; [apply Hr | apply (Hq os0 started_inst true)]].
Defined.

(** C6: a successful [revive()] keeps [id], [permanent], the lock and
    [last_used]; the old driver was quit and a fresh one (the next handle
    the OS hands out, distinct from every earlier one) replaces it; both
    cookie flags are [False] and [_alive] is [True] again. *)
Theorem revive_keeps_identity (o : Os) (out : driver_outcome) (i : BrowserInstance)
    (o' : Os) (i' : BrowserInstance) (H : revive o out i = (o', i', None)) :
  id i' = id i /\ permanent i' = permanent i /\ locked i' = locked i /\
  last_used i' = last_used i /\
  autodoc_cookie_handled i' = false /\ realoem_cookie_handled i' = false /\
  alive i' = true /\ driver i' = Some (next_proc o) /\ wait i' = Some (next_proc o) /\
  (next_proc o < next_proc o')%nat /\
  (forall h, driver i = Some h -> In (DriverQuit h) (os_log o') /\
                                  ((h < next_proc o)%nat -> driver i' <> Some h)).
Proof.
  unfold revive in H.
  pose proof (quit_fields o i) as (Hid&Hp&Hl&Hu&_&_&_&_&Hn&Hlog).
  destruct (quit o i) as [o1 i1]; simpl in *.
  destruct out as [|rd]; simpl in H; [discriminate|].
  injection H as <- <-; simpl.
  rewrite Hn, Hid, Hp, Hl, Hu.
  repeat split; try reflexivity; try lia.
  - apply Hlog. assumption.
  - intros Hlt Heq. injection Heq. lia.
Qed.

Lemma revive_keeps_identity_witness :
  exists o' i',
    revive os1 (DriverStarts true) started_inst = (o', i', None) /\
    id i' = id started_inst /\ driver i' = Some 3%nat /\ driver started_inst = Some 1%nat.
Proof.
  eexists. eexists.
  assert (H : revive os1 (DriverStarts true) started_inst =
              (fst (fst (revive os1 (DriverStarts true) started_inst)),
               snd (fst (revive os1 (DriverStarts true) started_inst)), None))
    by reflexivity.
  split; [exact H|].
  destruct (revive_keeps_identity _ _ _ _ _ H) as (Hid&_&_&_&_&_&_&Hd&_).
  split; [exact Hid | split; [exact Hd | reflexivity]].
Defined.

(* ------------------------------------------------------------------ *)
(** ** Release *)

Lemma release_inst_fields (now : Z) (i : BrowserInstance) :
  last_used (release_inst now i) = now /\ locked (release_inst now i) = false.
Proof.
  unfold release_inst, lock_release, touch; simpl.
  destruct (locked i); simpl; auto.
Qed.

(** C4: [release()] on a free lock raises nothing outward (the
    [RuntimeError] of [lock.release()] is swallowed) and only touches;
    every [release()] touches and leaves the lock free; after any non-empty
    sequence of releases the lock is free, [last_used] is the last
    release's clock reading, and a non-blocking acquire by another caller
    succeeds. *)
Theorem release_is_idempotent (t : Z) (ts : list Z) (j : BrowserInstance) :
  (forall now i, locked i = false ->
     snd (lock_release (touch now i)) = Some (RuntimeError "release unlocked lock") /\
     release_inst now i = touch now i) /\
  (forall now i, last_used (release_inst now i) = now /\ locked (release_inst now i) = false) /\
  (locked (fold_left (fun i now => release_inst now i) (t :: ts) j) = false /\
   last_used (fold_left (fun i now => release_inst now i) (t :: ts) j) = List.last (t :: ts) 0 /\
   snd (lock_try_acquire (fold_left (fun i now => release_inst now i) (t :: ts) j)) = true).
Proof.
  split; [|split].
  - intros now i Hl. unfold release_inst, lock_release, touch; simpl. rewrite Hl. auto.
  - exact release_inst_fields.
  - assert (Hgen : forall ts' t' j',
      locked (fold_left (fun i now => release_inst now i) (t' :: ts') j') = false /\
      last_used (fold_left (fun i now => release_inst now i) (t' :: ts') j') =
        List.last (t' :: ts') 0).
    { induction ts' as [|t2 ts' IH]; intros t' j'; simpl.
      - destruct (release_inst_fields t' j') as [Hu Hl]. auto.
      - apply (IH t2 (release_inst t' j')). }
    destruct (Hgen ts t j) as [Hl Hu].
    split; [exact Hl | split; [exact Hu|]].
    unfold lock_try_acquire. rewrite Hl. reflexivity.
Qed.

(* ------------------------------------------------------------------ *)
(** ** Watchdog *)

(** C2: once [acquire] has given an instance, a success returned by
    [_run_scrape] is the response whatever the watchdog did; a failure
    returned or raised after the watchdog has set [timed_out] becomes the
    error ["Scrape timed out after {timeout}s"]. *)
Theorem scrape_success_wins_timeout_mapped (b s : string) (r : nat)
    (Hb : strip b <> "") (Hs : lower s = "autodoc" \/ lower s = "realoem") :
  (forall result timed_out, success result = true ->
     scrape_barcode b s (Acquired r) (RunReturns result) timed_out = Respond result) /\
  (forall result, success result = false ->
     scrape_barcode b s (Acquired r) (RunReturns result) true =
       Respond (timeout_response (strip b) (lower s))) /\
  (forall msg, scrape_barcode b s (Acquired r) (RunRaises msg) true =
       Respond (timeout_response (strip b) (lower s))).
Proof.
  assert (Hpre : forall run tm,
    scrape_barcode b s (Acquired r) run tm =
    match run with
    | RunReturns result =>
        if negb (success result) && tm then Respond (timeout_response (strip b) (lower s))
        else Respond result
    | RunRaises msg =>
        if tm then Respond (timeout_response (strip b) (lower s))
        else Respond {| success := false; barcode := strip b; scraper := lower s;
                        data := None; error := Some msg |}
    end).
  { intros run tm. unfold scrape_barcode.
    apply String.eqb_neq in Hb. rewrite Hb. simpl.
    assert (Hv : (String.eqb (lower s) "autodoc" || String.eqb (lower s) "realoem")%bool = true).
    { destruct Hs as [-> | ->]; reflexivity. }
    rewrite Hv. reflexivity. }
  split; [|split].
  - intros result tm Hsucc. rewrite Hpre, Hsucc. reflexivity.
  - intros result Hfail. rewrite Hpre, Hfail. reflexivity.
  - intros msg. rewrite Hpre. reflexivity.
Qed.

Lemma scrape_success_wins_timeout_mapped_witness :
  scrape_barcode " 34116860912 " "AutoDoc" (Acquired 1) (RunRaises "session deleted") true =
  Respond (timeout_response "34116860912" "autodoc").
Proof.
  assert (Hb : strip " 34116860912 " <> "") by (vm_compute; discriminate).
  assert (Hs : lower "AutoDoc" = "autodoc" \/ lower "AutoDoc" = "realoem")
    by (left; vm_compute; reflexivity).
  destruct (scrape_success_wins_timeout_mapped " 34116860912 " "AutoDoc" 1 Hb Hs)
    as (_&_&H).
  exact (H "session deleted").
Defined.

(* ------------------------------------------------------------------ *)
(** ** Acquire *)

Lemma scan_found (st : gmap nat BrowserInstance) (l : list nat) (r : nat) :
  scan st l = Some r -> In r l /\ exists i, st !! r = Some i /\ locked i = false.
Proof.
  induction l as [|x l IH]; simpl; [discriminate|].
  destruct (st !! x) as [i|] eqn:Hx.
  - destruct (locked i) eqn:Hl.
    + intros Hs. destruct (IH Hs) as [Hin Hi]. auto.
    + intros Hs. injection Hs as <-. split; [auto | exists i; auto].
  - intros Hs. destruct (IH Hs) as [Hin Hi]. auto.
Qed.

Lemma acquire_section_got (now : Z) (sp : bool) (w w' : World) (got : option nat)
    (sp' : bool) (new : option nat) (r : nat) :
  acquire_section now sp w = (w', got, sp', new) -> got = Some r ->
  new = None /\ sp' = sp /\ registry w' = registry w /\ os w' = os w /\ In r (registry w) /\
  exists i, store w !! r = Some i /\ locked i = false /\
            store w' = <[r := set_locked true i]> (store w).
Proof.
  unfold acquire_section.
  destruct (scan (store w) (registry w)) as [x|] eqn:Hs.
  - destruct (scan_found _ _ _ Hs) as [Hin [i [Hi Hl]]].
    rewrite Hi. intros Heq Hg. injection Heq as <- <- <- <-. injection Hg as <-.
    repeat split; auto. exists i. auto.
  - destruct (negb sp && Nat.ltb (length (registry w)) POOL_MAX_INSTANCES);
      intros Heq Hg; injection Heq as <- <- <- <-; discriminate.
Qed.

Lemma acquire_section_new (now : Z) (sp : bool) (w w' : World) (got : option nat)
    (sp' : bool) (new : option nat) (n : nat) :
  acquire_section now sp w = (w', got, sp', new) -> new = Some n ->
  sp = false /\ sp' = true /\ got = None /\ registry w' = registry w ++ [n] /\
  (length (registry w) < POOL_MAX_INSTANCES)%nat /\
  store w' !! n = Some (set_locked true (new_instance n false now)).
Proof.
  unfold acquire_section.
  destruct (scan (store w) (registry w)) as [x|] eqn:Hs.
  - destruct (store w !! x); intros Heq Hn; injection Heq as <- <- <- <-; discriminate.
  - destruct sp; simpl.
    + intros Heq Hn; injection Heq as <- <- <- <-; discriminate.
    + destruct (Nat.ltb (length (registry w)) POOL_MAX_INSTANCES) eqn:Hlt;
        intros Heq Hn; injection Heq as <- <- <- <-; [|discriminate].
      injection Hn as <-. apply Nat.ltb_lt in Hlt. simpl.
      repeat split; auto. apply lookup_insert_eq.
Qed.

Lemma acquire_section_none (now : Z) (sp : bool) (w w' : World) (got : option nat)
    (sp' : bool) (new : option nat) :
  acquire_section now sp w = (w', got, sp', new) -> got = None -> new = None ->
  w' = w /\ sp' = sp.
Proof.
  unfold acquire_section.
  destruct (scan (store w) (registry w)) as [x|] eqn:Hs.
  - destruct (store w !! x); intros Heq Hg Hn; injection Heq as <- <- <- <-;
      [discriminate | auto].
  - destruct (negb sp && Nat.ltb (length (registry w)) POOL_MAX_INSTANCES);
      intros Heq Hg Hn; injection Heq as <- <- <- <-; [discriminate | auto].
Qed.





Lemma acquire_section_spawned (now : Z) (w : World) :
  snd (acquire_section now true w) = None /\
  snd (fst (acquire_section now true w)) = true /\
  registry (fst (fst (fst (acquire_section now true w)))) = registry w.
Proof.
  unfold acquire_section.
  destruct (scan (store w) (registry w)) as [x|]; [destruct (store w !! x)|]; simpl; auto.
Qed.

Lemma acquire_loop_spawn_count (deadline : Z) (its : list iteration) (pr : probe) :
  forall sp w, (prelocks (snd (acquire_loop deadline sp its pr w)) <= if sp then 0 else 1)%nat.
Proof.
  induction its as [|it rest IH]; intros sp w; simpl; [unfold prelocks; destruct sp; simpl; lia|].
  destruct (it_check it <? deadline); [|unfold prelocks; destruct sp; simpl; lia].
  destruct (acquire_section (it_lock it) sp (it_others it w)) as [[[w2 got] sp'] new] eqn:Hsec.
  destruct new as [n|].
  - destruct (acquire_section_new _ _ _ _ _ _ _ n Hsec eq_refl) as (-> & -> & -> & _).
    specialize (IH true w2).
    destruct (acquire_loop deadline true rest pr w2) as [[w3 res] lg]. simpl in *.
    unfold prelocks in *. simpl. lia.
  - destruct got as [r|].
    + destruct (post_acquire pr r w2). unfold prelocks. simpl. destruct sp; lia.
    + destruct (acquire_section_none _ _ _ _ _ _ _ Hsec eq_refl eq_refl) as [_ ->].
      specialize (IH sp w2).
      destruct (acquire_loop deadline sp rest pr w2) as [[w3 res] lg]. exact IH.
Qed.

(** C5: one call of [acquire] spawns at most one temp instance, however
    many passes its loop makes and whatever the other threads do between
    them: a locked section only appends when [spawned] is still [False],
    and it sets [spawned]. *)
Theorem acquire_spawns_at_most_once (t0 timeout : Z) (its : list iteration) (pr : probe)
    (w : World) :
  (prelocks (snd (acquire t0 timeout its pr w)) <= 1)%nat /\
  (forall now sp w1 w2 got sp' n,
     acquire_section now sp w1 = (w2, got, sp', Some n) ->
     sp = false /\ sp' = true /\ registry w2 = registry w1 ++ [n]) /\
  (forall now w1, snd (acquire_section now true w1) = None /\
     registry (fst (fst (fst (acquire_section now true w1)))) = registry w1).
Proof.
  split; [|split].
  - apply (acquire_loop_spawn_count (t0 + timeout) its pr false w).
  - intros now sp w1 w2 got sp' n Hsec.
    destruct (acquire_section_new _ _ _ _ _ _ _ n Hsec eq_refl) as (H1 & H2 & _ & H3 & _).
    auto.
  - intros now w1. destruct (acquire_section_spawned now w1) as (H1 & _ & H3). auto.
Qed.

Lemma acquire_loop_exhausted (deadline : Z) (its : list iteration) (pr : probe) :
  forall sp w w' log,
  acquire_loop deadline sp its pr w = (w', AcquireRaised exhausted_error, log) ->
  scanned_none log = true /\ (length log <= if sp then 0 else 1)%nat /\
  Exists (fun it => deadline <= it_check it) its.
Proof.
  induction its as [|it rest IH]; intros sp w w' log; simpl; [discriminate|].
  destruct (it_check it <? deadline) eqn:Hc.
  - destruct (acquire_section (it_lock it) sp (it_others it w)) as [[[w2 got] sp'] new] eqn:Hsec.
    destruct got as [r|].
    + destruct (post_acquire pr r w2) as [w3 res] eqn:Hp.
      intros Heq. injection Heq as _ Hres _.
      unfold post_acquire in Hp.
      destruct (store w2 !! r) as [i|]; [|injection Hp as _ <-; discriminate].
      destruct (is_alive (pr_alive pr) i) as [i1 [|]];
        [injection Hp as _ <-; discriminate|].
      destruct (revive (os w2) (pr_revive pr) i1) as [[o2 i2] [ex|]] eqn:Hr;
        [|injection Hp as _ <-; discriminate].
      injection Hp as _ <-. injection Hres as Hex.
      unfold revive in Hr. destruct (quit (os w2) i1).
      destruct (pr_revive pr); simpl in Hr; [|discriminate].
      injection Hr as _ _ <-. discriminate.
    + destruct (acquire_loop deadline sp' rest pr w2) as [[w3 res] lg] eqn:Hl.
      intros Heq. injection Heq as -> -> <-.
      destruct (IH _ _ _ _ Hl) as (Hs & Hlen & Hex).
      split; [|split; [|right; exact Hex]].
      * destruct new as [n|]; simpl; exact Hs.
      * destruct new as [n|].
        -- destruct (acquire_section_new _ _ _ _ _ _ _ n Hsec eq_refl) as (-> & -> & _).
           simpl. lia.
        -- destruct (acquire_section_none _ _ _ _ _ _ _ Hsec eq_refl eq_refl) as [_ ->].
           exact Hlen.
  - intros Heq. injection Heq as <- <-. split; [reflexivity | split; [destruct sp; simpl; lia|]].
    left. apply Z.ltb_ge. exact Hc.
Qed.

Lemma acquire_loop_not_exhausted (deadline : Z) (its : list iteration) (pr : probe) :
  forall sp w w' res log,
  acquire_loop deadline sp its pr w = (w', res, log) ->
  scanned_none log = true -> res = AcquireRaised exhausted_error \/ res = Pending.
Proof.
  induction its as [|it rest IH]; intros sp w w' res log; simpl.
  - intros Heq. injection Heq as _ <- _. auto.
  - destruct (it_check it <? deadline).
    + destruct (acquire_section (it_lock it) sp (it_others it w)) as [[[w2 got] sp'] new].
      destruct got as [r|].
      * destruct (post_acquire pr r w2) as [w3 res'].
        intros Heq. injection Heq as _ _ <-. intros Hs.
        unfold scanned_none in Hs. rewrite forallb_app in Hs.
        apply andb_prop in Hs. destruct Hs as [_ Hs]. discriminate.
      * destruct (acquire_loop deadline sp' rest pr w2) as [[w3 res'] lg] eqn:Hl.
        intros Heq. injection Heq as _ <- <-. intros Hs.
        unfold scanned_none in Hs. rewrite forallb_app in Hs.
        apply andb_prop in Hs. destruct Hs as [_ Hs].
        exact (IH _ _ _ _ _ Hl Hs).
    + intros Heq. injection Heq as _ <- _. auto.
Qed.


(** What [acquire] does with an instance it obtained: it returns it, or
    raises the error of reviving it. *)
Lemma post_acquire_result (pr : probe) (r : nat) (w : World) :
  snd (post_acquire pr r w) = Acquired r \/ snd (post_acquire pr r w) = AcquireRaised DriverError.
Proof.
  unfold post_acquire. destruct (store w !! r) as [i|]; [|left; reflexivity].
  destruct (is_alive (pr_alive pr) i) as [i1 [|]]; [left; reflexivity|].
  unfold revive. destruct (quit (os w) i1) as [o1 i1'].
  destruct (pr_revive pr); simpl; [right|left]; reflexivity.
Qed.

Lemma acquire_loop_scanned (deadline : Z) (its : list iteration) (pr : probe) :
  forall sp w w' res log r,
  acquire_loop deadline sp its pr w = (w', res, log) -> In (Scanned r) log ->
  res = Acquired r \/ res = AcquireRaised DriverError.
Proof.
  induction its as [|it rest IH]; intros sp w w' res log r; simpl.
  - intros Heq. injection Heq as _ _ <-. intros [].
  - destruct (it_check it <? deadline); [|intros Heq; injection Heq as _ _ <-; intros []].
    destruct (acquire_section (it_lock it) sp (it_others it w)) as [[[w2 got] sp'] new].
    assert (Htaken : ~ In (Scanned r) (match new with Some n => [PreLocked n] | None => [] end))
      by (destruct new; simpl; intuition discriminate).
    destruct got as [r0|].
    + pose proof (post_acquire_result pr r0 w2) as Hpa.
      destruct (post_acquire pr r0 w2) as [w3 res'].
      intros Heq. injection Heq as _ <- <-. intros Hin.
      apply in_app_or in Hin as [Hin|[Hr|[]]]; [contradiction|].
      injection Hr as ->. exact Hpa.
    + destruct (acquire_loop deadline sp' rest pr w2) as [[w3 res'] lg] eqn:Hl.
      intros Heq. injection Heq as _ <- <-. intros Hin.
      apply in_app_or in Hin as [Hin|Hin]; [contradiction|].
      exact (IH _ _ _ _ _ _ Hl Hin).
Qed.

(** [_start_instance] releases the lock of the instance it starts, whether
    Chrome starts or not. *)
Lemma start_instance_unlocks (r : nat) (out : driver_outcome) (w : World) (i : BrowserInstance) :
  store w !! r = Some i ->
  exists i', store (start_instance r out w) !! r = Some i' /\ locked i' = false.
Proof.
  intros Hi. unfold start_instance. rewrite Hi.
  destruct (start (os w) out i) as [[o1 i1] [e|]].
  - destruct (quit o1 i1) as [o2 i2]. simpl. eexists. split; [apply lookup_insert_eq|].
    unfold lock_release. destruct (locked i2) eqn:E; [reflexivity|exact E].
  - simpl. eexists. split; [apply lookup_insert_eq|].
    unfold lock_release. destruct (locked i1) eqn:E; [reflexivity|exact E].
Qed.

(** C8, as the claim states it, fails: the deadline is only tested at the
    top of a pass.  Here the pass starts at clock 29, before the deadline
    0 + 30, takes the registry lock and the free permanent instance's lock
    at clock 30, not before the deadline, and [acquire] still returns it
    instead of raising. *)
Lemma acquire_lock_at_deadline_returns :
  (0 + 30 <= it_lock (quiet_pass 29 30))%Z /\
  snd (fst (acquire 0 30 [quiet_pass 29 30] probe_alive w_ready)) = Acquired 1.
Proof. split; [vm_compute; discriminate | vm_compute; reflexivity]. Qed.

(** C8, amended: [acquire] raises the pool-exhausted [RuntimeError] exactly
    when its loop ended without its scan obtaining any lock.  The deadline
    is only tested at the top of a pass, so a pass that obtains a lock
    does not raise it: the call returns that session, or raises the error
    of reviving it.  On the pool-exhausted failure a pass tested the clock
    at or after the deadline, and no session lock is left held by the
    caller: it obtained none by scanning, and the only lock it took is the
    pre-lock of at most one temp instance it spawned, which that
    instance's background start releases.  [/scrape] turns the error into
    HTTP 503. *)
Theorem acquire_exhausted_iff (t0 timeout : Z) (its : list iteration) (pr : probe)
    (w : World) :
  (snd (fst (acquire t0 timeout its pr w)) = AcquireRaised exhausted_error <->
   snd (fst (acquire t0 timeout its pr w)) <> Pending /\
   scanned_none (snd (acquire t0 timeout its pr w)) = true) /\
  (snd (fst (acquire t0 timeout its pr w)) = AcquireRaised exhausted_error ->
   (length (snd (acquire t0 timeout its pr w)) <= 1)%nat /\
   Forall (fun e => exists n, e = PreLocked n) (snd (acquire t0 timeout its pr w)) /\
   Exists (fun it => t0 + timeout <= it_check it) its /\
   (forall n out w2 i, In (PreLocked n) (snd (acquire t0 timeout its pr w)) ->
      store w2 !! n = Some i ->
      exists i', store (start_instance n out w2) !! n = Some i' /\ locked i' = false)) /\
  (forall r, In (Scanned r) (snd (acquire t0 timeout its pr w)) ->
     snd (fst (acquire t0 timeout its pr w)) = Acquired r \/
     snd (fst (acquire t0 timeout its pr w)) = AcquireRaised DriverError) /\
  (forall b s run timed_out,
     strip b <> "" -> lower s = "autodoc" \/ lower s = "realoem" ->
     scrape_barcode b s (AcquireRaised exhausted_error) run timed_out =
       HTTPException 503 "All scrapers busy, please retry in a moment").
Proof.
  unfold acquire.
  destruct (acquire_loop (t0 + timeout) false its pr w) as [[w' res] log] eqn:Hl. simpl.
  split; [|split; [|split]].
  - split.
    + intros ->. destruct (acquire_loop_exhausted _ _ _ _ _ _ _ Hl) as (Hs & _ & _).
      split; [discriminate | exact Hs].
    + intros [Hp Hs]. destruct (acquire_loop_not_exhausted _ _ _ _ _ _ _ _ Hl Hs);
        [assumption | contradiction].
  - intros ->. destruct (acquire_loop_exhausted _ _ _ _ _ _ _ Hl) as (Hs & Hlen & Hex).
    split; [exact Hlen | split; [|split; [exact Hex|]]].
    + apply List.Forall_forall. intros e He.
      unfold scanned_none in Hs. rewrite forallb_forall in Hs.
      specialize (Hs e He). destruct e as [r|n]; [discriminate | eauto].
    + intros n out w2 i _ Hi. exact (start_instance_unlocks n out w2 i Hi).
  - intros r Hr. exact (acquire_loop_scanned _ _ _ _ _ _ _ _ _ Hl Hr).
  - intros b s run tm Hb Hs. unfold scrape_barcode.
    apply String.eqb_neq in Hb. rewrite Hb. simpl.
    destruct Hs as [-> | ->]; reflexivity.
Qed.

(* ------------------------------------------------------------------ *)
(** ** Idle reaper *)

Lemma remove_first_skip (a : nat) (xs t : list nat) :
  (forall x, In x xs -> x <> a) ->
  fold_left (fun l r => remove_first r l) xs (a :: t) =
  a :: fold_left (fun l r => remove_first r l) xs t.
Proof.
  revert t. induction xs as [|x xs IH]; intros t Hne; simpl; [reflexivity|].
  assert (Hx : Nat.eqb x a = false) by (apply Nat.eqb_neq; apply Hne; left; reflexivity).
  rewrite Hx. apply IH. intros y Hy. apply Hne. right. exact Hy.
Qed.

(** Removing, one [list.remove] at a time, the entries a filter selected
    leaves exactly the entries it rejected. *)
Lemma remove_filtered (p : nat -> bool) (l : list nat) :
  fold_left (fun l r => remove_first r l) (List.filter p l) l =
  List.filter (fun r => negb (p r)) l.
Proof.
  induction l as [|a t IH]; simpl; [reflexivity|].
  destruct (p a) eqn:Hp; simpl.
  - rewrite Nat.eqb_refl. exact IH.
  - rewrite remove_first_skip; [rewrite IH; reflexivity|].
    intros x Hx ->. apply filter_In in Hx. destruct Hx as [_ Hx]. congruence.
Qed.

Lemma quit_ref_registry (r : nat) (w : World) : registry (quit_ref r w) = registry w.
Proof. unfold quit_ref. destruct (store w !! r); [destruct (quit (os w) b)|]; reflexivity. Qed.

Lemma quit_ref_done (r : nat) (w : World) :
  is_Some (store w !! r) -> quit_done r (quit_ref r w).
Proof.
  intros [i Hi]. unfold quit_ref, quit_done. rewrite Hi.
  pose proof (quit_fields (os w) i) as (_&_&_&_&_&_&Ha&Hd&_).
  destruct (quit (os w) i) as [o i']. simpl in *.
  exists i'. split; [apply lookup_insert_eq | auto].
Qed.

Lemma quit_ref_keeps (r r' : nat) (w : World) :
  quit_done r w -> quit_done r (quit_ref r' w).
Proof.
  intros Hd. destruct (decide (r = r')) as [<-|Hne].
  - apply quit_ref_done. destruct Hd as [i [Hi _]]. rewrite Hi. eexists; reflexivity.
  - unfold quit_ref. destruct (store w !! r') as [i'|]; [|exact Hd].
    destruct (quit (os w) i') as [o i'']. unfold quit_done in *. simpl.
    rewrite lookup_insert_ne by congruence. exact Hd.
Qed.

Lemma quit_refs_registry (xs : list nat) (w : World) :
  registry (fold_left (fun w' r => quit_ref r w') xs w) = registry w.
Proof.
  revert w. induction xs as [|x xs IH]; intros w; simpl; [reflexivity|].
  rewrite IH. apply quit_ref_registry.
Qed.

Lemma quit_refs_done (xs : list nat) :
  forall w r, (In r xs -> is_Some (store w !! r)) ->
  (In r xs \/ quit_done r w) -> quit_done r (fold_left (fun w' r => quit_ref r w') xs w).
Proof.
  induction xs as [|x xs IH]; intros w r Hs Hin; simpl.
  - destruct Hin as [[]|Hd]. exact Hd.
  - apply IH.
    + intros Hr. destruct (decide (r = x)) as [->|Hne].
      * pose proof (quit_ref_done x w) as [i [Hi _]];
          [apply Hs; left; reflexivity|]. rewrite Hi. eexists; reflexivity.
      * unfold quit_ref. destruct (store w !! x) as [i'|];
          [destruct (quit (os w) i'); simpl; rewrite lookup_insert_ne by congruence|];
          apply Hs; right; exact Hr.
    + destruct Hin as [[->|Hr]|Hd].
      * right. apply quit_ref_done. apply Hs. left. reflexivity.
      * left. exact Hr.
      * right. apply quit_ref_keeps. exact Hd.
Qed.

(** C7: one reaper cycle removes from the registry exactly the temp,
    unlocked instances idle for more than [IDLE_KILL_AFTER]; a permanent
    instance stays whatever its idle time; the removed ones are quit; the
    removals happen between taking and releasing the registry lock and the
    quits only after its release. *)
Theorem reaper_removes_exactly_idle_temps (now : Z) (w : World) :
  registry (fst (reaper_cycle now w)) =
    List.filter (fun r => negb (reap_ref now (store w) r)) (registry w) /\
  (forall r, In r (snd (reaper_phase1 now w)) <->
     In r (registry w) /\
     exists i, store w !! r = Some i /\ permanent i = false /\ locked i = false /\
               now - last_used i > IDLE_KILL_AFTER) /\
  (forall r i, In r (registry w) -> store w !! r = Some i -> permanent i = true ->
     ~ In r (snd (reaper_phase1 now w)) /\ In r (registry (fst (reaper_cycle now w)))) /\
  (forall r, In r (snd (reaper_phase1 now w)) -> quit_done r (fst (reaper_cycle now w))) /\
  snd (reaper_cycle now w) =
    [RegistryLock] ++ map Removed (snd (reaper_phase1 now w)) ++ [RegistryUnlock] ++
    map Quitted (snd (reaper_phase1 now w)).
Proof.
  assert (Hreg : registry (fst (reaper_cycle now w)) =
                 List.filter (fun r => negb (reap_ref now (store w) r)) (registry w)).
  { unfold reaper_cycle, reaper_phase1. simpl.
    rewrite quit_refs_registry. simpl. apply remove_filtered. }
  assert (Hsel : forall r, In r (snd (reaper_phase1 now w)) <->
     In r (registry w) /\
     exists i, store w !! r = Some i /\ permanent i = false /\ locked i = false /\
               now - last_used i > IDLE_KILL_AFTER).
  { intros r. unfold reaper_phase1. simpl. rewrite filter_In.
    unfold reap_ref, reapable.
    split.
    - intros [Hin Hp]. split; [exact Hin|].
      destruct (store w !! r) as [i|]; [|discriminate].
      exists i. apply andb_prop in Hp as [Hp Hi]. apply andb_prop in Hp as [Hp Hl].
      apply negb_true_iff in Hp, Hl. apply Z.ltb_lt in Hi.
      split; [reflexivity | split; [exact Hp | split; [exact Hl | lia]]].
    - intros [Hin [i (Hi & Hp & Hl & Ht)]]. split; [exact Hin|].
      rewrite Hi, Hp, Hl. simpl. apply Z.ltb_lt. lia. }
  split; [exact Hreg|]. split; [exact Hsel|]. split; [|split].
  - intros r i Hin Hi Hp.
    assert (Hn : ~ In r (snd (reaper_phase1 now w))).
    { intros Hk. apply Hsel in Hk as [_ [i' [Hi' [Hp' _]]]]. congruence. }
    split; [exact Hn|]. rewrite Hreg. apply filter_In. split; [exact Hin|].
    unfold reap_ref, reapable. rewrite Hi, Hp. reflexivity.
  - intros r Hk. unfold reaper_cycle.
    destruct (reaper_phase1 now w) as [w1 to_kill] eqn:Hph. simpl in *.
    apply quit_refs_done; [|left; exact Hk].
    intros Hr. apply Hsel in Hr as [_ [i [Hi _]]].
    assert (Hst : store w1 = store w) by (unfold reaper_phase1 in Hph; injection Hph as <- _; reflexivity).
    rewrite Hst, Hi. eexists; reflexivity.
  - unfold reaper_cycle. destruct (reaper_phase1 now w). reflexivity.
Qed.

(* ------------------------------------------------------------------ *)
(** ** Status *)

Lemma count_split (st : gmap nat BrowserInstance) (p : BrowserInstance -> bool)
    (l : list nat) :
  Forall (fun r => is_Some (st !! r)) l ->
  (length (List.filter (fun r => match st !! r with Some i => p i | None => false end) l) +
   length (List.filter (fun r => match st !! r with Some i => negb (p i) | None => false end) l)
   = length l)%nat.
Proof.
  induction l as [|a t IH]; intros Hf; simpl; [reflexivity|].
  inversion Hf as [|? ? [i Hi] Ht]; subst.
  rewrite Hi. destruct (p i); simpl; rewrite ?Nat.add_succ_r; f_equal; apply IH; exact Ht.
Qed.

(** C9, as the claim states it, fails: the last key of [status()] is
    ["temp"], not ["temporary"]. *)
Lemma status_keys_not_temporary :
  map fst (status w_ready) <> ["total"; "busy"; "idle"; "permanent"; "temporary"].
Proof. vm_compute. discriminate. Qed.

(** C9, amended: [status()] has the keys total, busy, idle, permanent and
    temp; total is the registry size, busy and idle count locked and free
    instances, busy + idle = total and permanent + temp = total. *)
Theorem status_counts (w : World) (Hwf : wf_registry w) :
  map fst (status w) = ["total"; "busy"; "idle"; "permanent"; "temp"] /\
  map snd (status w) = [length (registry w); count_insts locked w;
                        count_insts (fun i => negb (locked i)) w;
                        count_insts permanent w;
                        count_insts (fun i => negb (permanent i)) w] /\
  (count_insts locked w + count_insts (fun i => negb (locked i)) w = length (registry w))%nat /\
  (count_insts permanent w + count_insts (fun i => negb (permanent i)) w
   = length (registry w))%nat.
Proof.
  split; [reflexivity | split; [reflexivity|]].
  unfold count_insts. split; apply count_split; exact Hwf.
Qed.

Lemma status_counts_witness :
  wf_registry w_ready /\ map fst (status w_ready) = ["total"; "busy"; "idle"; "permanent"; "temp"].
Proof.
  assert (Hwf : wf_registry w_ready).
  { unfold wf_registry. vm_compute. repeat constructor. eexists. reflexivity. }
  split; [exact Hwf | exact (proj1 (status_counts w_ready Hwf))].
Defined.

(* ------------------------------------------------------------------ *)
(** ** Registry bound *)

Lemma remove_first_length (x : nat) (l : list nat) :
  (length (remove_first x l) <= length l)%nat.
Proof. induction l as [|y t IH]; simpl; [lia|]. destruct (Nat.eqb x y); simpl; lia. Qed.

Lemma pool_start_init (now : Z) (out : driver_outcome) :
  snd (pool_start now out init_world) = None ->
  registry (fst (pool_start now out init_world)) = [1%nat] /\
  exists i, store (fst (pool_start now out init_world)) !! 1%nat = Some i /\ permanent i = true.
Proof.
  destruct out as [|rd]; simpl; [discriminate|]. intros _.
  split; [reflexivity|]. eexists. split; [apply lookup_insert_eq | reflexivity].
Qed.

Lemma pool_step_bound (w w' : World) :
  pool_step w w' -> (length (registry w) <= POOL_MAX_INSTANCES)%nat ->
  (length (registry w') <= POOL_MAX_INSTANCES)%nat.
Proof.
  intros Hs Hb. destruct Hs as [now sp w0|r op w0|r out w0|now w0|w0|w0].
  - destruct (acquire_section now sp w0) as [[[w2 got] sp'] new] eqn:Hsec. simpl.
    destruct new as [n|].
    + destruct (acquire_section_new _ _ _ _ _ _ _ n Hsec eq_refl) as (_&_&_&Hr&Hlt&_).
      rewrite Hr, length_app. simpl. lia.
    + destruct got as [r|].
      * destruct (acquire_section_got _ _ _ _ _ _ _ r Hsec eq_refl) as (_&_&Hr&_).
        rewrite Hr. exact Hb.
      * destruct (acquire_section_none _ _ _ _ _ _ _ Hsec eq_refl eq_refl) as [-> _]. exact Hb.
  - unfold inst_op_world. destruct (store w0 !! r); [destruct (apply_inst_op op (os w0) b)|];
      exact Hb.
  - unfold start_instance. destruct (store w0 !! r) as [i|]; [|exact Hb].
    destruct (start (os w0) out i) as [[o1 i1] [e|]].
    + destruct (quit o1 i1). simpl. pose proof (remove_first_length r (registry w0)). lia.
    + exact Hb.
  - unfold reaper_phase1. simpl. rewrite remove_filtered.
    pose proof (List.filter_length_le (fun r => negb (reap_ref now (store w0) r)) (registry w0)).
    lia.
  - unfold shutdown_begin. destruct (stopped w0); exact Hb.
  - simpl. unfold POOL_MAX_INSTANCES. lia.
Qed.

(** C1: in every state of the running service the registry holds at most
    [POOL_MAX_INSTANCES] instances: [pool.start()] puts in the one
    permanent instance, a locked section of [acquire] appends only below
    the cap, and no other step appends. *)
Theorem registry_within_cap (w : World) (H : reachable w) :
  (length (registry w) <= POOL_MAX_INSTANCES)%nat.
Proof.
  induction H as [now out Hok|w w' Hr IH Hs].
  - destruct (pool_start_init now out Hok) as [-> _]. simpl. unfold POOL_MAX_INSTANCES. lia.
  - exact (pool_step_bound w w' Hs IH).
Qed.

Lemma registry_within_cap_witness :
  reachable w_full /\ length (registry w_full) = 3%nat /\
  (length (registry w_full) <= POOL_MAX_INSTANCES)%nat.
Proof.
  assert (Hr : reachable w_full).
  { unfold w_full.
    apply (reach_step (fst (fst (fst (acquire_section 1 false w_started))))).
    - apply (reach_step w_started).
      + apply reach_start. reflexivity.
      + apply step_acquire_section.
    - apply step_acquire_section. }
  split; [exact Hr | split; [vm_compute; reflexivity | exact (registry_within_cap w_full Hr)]].
Defined.

(* ------------------------------------------------------------------ *)
(** ** Invariants of the running service *)

Lemma start_ident (o : Os) (out : driver_outcome) (i : BrowserInstance) :
  id (snd (fst (start o out i))) = id i /\ permanent (snd (fst (start o out i))) = permanent i.
Proof. destruct out; simpl; auto. Qed.

Lemma apply_inst_op_ident (op : inst_op) (o : Os) (i : BrowserInstance) :
  id (snd (apply_inst_op op o i)) = id i /\
  permanent (snd (apply_inst_op op o i)) = permanent i.
Proof.
  destruct op as [b|out| |now| |now|]; simpl.
  - unfold is_alive. destruct (negb (alive i)); [auto|].
    destruct (driver i); [destruct b|]; simpl; auto.
  - unfold revive.
    pose proof (quit_fields o i) as (Hid&Hp&_).
    destruct (quit o i) as [o1 i1]. simpl in Hid, Hp.
    destruct (start_ident o1 out (reset_cookie_flags i1)) as [Hs1 Hs2].
    destruct (start o1 out (reset_cookie_flags i1)) as [[o2 i2] e]. simpl in *.
    rewrite Hs1, Hs2. auto.
  - auto.
  - auto.
  - pose proof (quit_fields o i) as (Hid&Hp&_). auto.
  - unfold release_inst, lock_release. simpl. destruct (locked i); simpl; auto.
  - unfold lock_release. destruct (locked i); simpl; auto.
Qed.

Lemma in_remove_first (x y : nat) (l : list nat) : In y (remove_first x l) -> In y l.
Proof.
  induction l as [|z t IH]; simpl; [auto|].
  destruct (Nat.eqb x z); simpl; [auto|]. intros [->|H]; auto.
Qed.

Lemma NoDup_remove_first (x : nat) (l : list nat) : NoDup l -> NoDup (remove_first x l).
Proof.
  induction l as [|z t IH]; simpl; [auto|]. intros Hnd.
  inversion Hnd as [|? ? Hz Ht]; subst.
  destruct (Nat.eqb x z); [exact Ht|].
  constructor; [|exact (IH Ht)]. intros Hin. apply Hz. apply list_elem_of_In.
    apply list_elem_of_In in Hin. exact (in_remove_first _ _ _ Hin).
Qed.

Lemma filter_remove_first_le (q : nat -> bool) (x : nat) (l : list nat) :
  (length (List.filter q (remove_first x l)) <= length (List.filter q l))%nat.
Proof.
  induction l as [|z t IH]; simpl; [lia|].
  assert (Hl : forall u, (length (List.filter q u) <= length u)%nat).
  { clear. induction u as [|y u IHu]; simpl; [lia|]. destruct (q y); simpl; lia. }
  pose proof (Hl t).
  destruct (Nat.eqb x z); simpl; destruct (q z); simpl; lia.
Qed.

Lemma filter_filter_le (p q : nat -> bool) (l : list nat) :
  (length (List.filter q (List.filter p l)) <= length (List.filter q l))%nat.
Proof.
  induction l as [|z t IH]; simpl; [lia|].
  destruct (p z); simpl; destruct (q z); simpl; lia.
Qed.

Lemma filter_perm_insert (st : gmap nat BrowserInstance) (r : nat) (i i' : BrowserInstance)
    (l : list nat) :
  st !! r = Some i -> permanent i' = permanent i ->
  List.filter (perm_ref (<[r := i']> st)) l = List.filter (perm_ref st) l.
Proof.
  intros Hi Hp. induction l as [|x t IH]; simpl; [reflexivity|].
  assert (E : perm_ref (<[r := i']> st) x = perm_ref st x).
  { unfold perm_ref. destruct (decide (x = r)) as [->|Hne].
    - rewrite lookup_insert_eq, Hi. exact Hp.
    - rewrite lookup_insert_ne by congruence. reflexivity. }
  rewrite E, IH. reflexivity.
Qed.

Lemma inv_update (w w' : World) (r : nat) (i i' : BrowserInstance) :
  pool_inv w -> store w !! r = Some i -> store w' = <[r := i']> (store w) ->
  id i' = id i -> permanent i' = permanent i -> id_counter w' = id_counter w ->
  (forall x, In x (registry w') -> In x (registry w)) -> NoDup (registry w') ->
  (length (List.filter (perm_ref (store w)) (registry w')) <=
   length (List.filter (perm_ref (store w)) (registry w)))%nat ->
  pool_inv w'.
Proof.
  intros (Hwf & Hnd & Hid & Hc) Hi Hst Hidi Hpi Hcnt Hsub Hnd' Hle.
  split; [|split; [exact Hnd'|split]].
  - unfold wf_registry in *. apply List.Forall_forall. intros x Hx.
    rewrite List.Forall_forall in Hwf. rewrite Hst.
    destruct (decide (x = r)) as [->|Hne].
    + rewrite lookup_insert_eq. eexists; reflexivity.
    + rewrite lookup_insert_ne by congruence. apply Hwf. apply Hsub. exact Hx.
  - intros x j Hj. rewrite Hst in Hj. rewrite Hcnt.
    destruct (decide (x = r)) as [->|Hne].
    + rewrite lookup_insert_eq in Hj. injection Hj as <-. rewrite Hidi. apply Hid. exact Hi.
    + rewrite lookup_insert_ne in Hj by congruence. apply Hid. exact Hj.
  - rewrite Hst. rewrite (filter_perm_insert _ _ _ _ _ Hi Hpi). lia.
Qed.

Lemma inv_registry (w w' : World) :
  pool_inv w -> store w' = store w -> id_counter w' = id_counter w ->
  (forall x, In x (registry w') -> In x (registry w)) -> NoDup (registry w') ->
  (length (List.filter (perm_ref (store w)) (registry w')) <=
   length (List.filter (perm_ref (store w)) (registry w)))%nat ->
  pool_inv w'.
Proof.
  intros (Hwf & Hnd & Hid & Hc) Hst Hcnt Hsub Hnd' Hle.
  split; [|split; [exact Hnd'|split]].
  - unfold wf_registry in *. apply List.Forall_forall. intros x Hx.
    rewrite List.Forall_forall in Hwf. rewrite Hst. apply Hwf. apply Hsub. exact Hx.
  - intros x j Hj. rewrite Hst in Hj. rewrite Hcnt. apply Hid. exact Hj.
  - rewrite Hst. lia.
Qed.

Lemma filter_perm_insert_notin (st : gmap nat BrowserInstance) (r : nat) (i' : BrowserInstance)
    (l : list nat) :
  (forall x, In x l -> x <> r) ->
  List.filter (perm_ref (<[r := i']> st)) l = List.filter (perm_ref st) l.
Proof.
  induction l as [|x t IH]; intros Hl; simpl; [reflexivity|].
  assert (E : perm_ref (<[r := i']> st) x = perm_ref st x).
  { unfold perm_ref. rewrite lookup_insert_ne; [reflexivity|].
    intros Heq. exact (Hl x (or_introl eq_refl) (eq_sym Heq)). }
  rewrite E, IH; [reflexivity|]. intros y Hy. apply Hl. right. exact Hy.
Qed.

Lemma fold_remove_props (q : nat -> bool) (ks l : list nat) :
  (forall x, In x (fold_left (fun l r => remove_first r l) ks l) -> In x l) /\
  (NoDup l -> NoDup (fold_left (fun l r => remove_first r l) ks l)) /\
  (length (List.filter q (fold_left (fun l r => remove_first r l) ks l)) <=
   length (List.filter q l))%nat.
Proof.
  revert l. induction ks as [|k ks IH]; intros l; simpl.
  - split; [auto|split; [auto|lia]].
  - destruct (IH (remove_first k l)) as (H1 & H2 & H3).
    split; [|split].
    + intros x Hx. apply (in_remove_first k). apply H1. exact Hx.
    + intros Hnd. apply H2. apply NoDup_remove_first. exact Hnd.
    + pose proof (filter_remove_first_le q k l). lia.
Qed.

Lemma fresh_not_registered (w : World) :
  pool_inv w -> forall x, In x (registry w) -> x <> S (id_counter w).
Proof.
  intros (Hwf & _ & Hid & _) x Hx ->.
  unfold wf_registry in Hwf. rewrite List.Forall_forall in Hwf.
  destruct (Hwf _ Hx) as [i Hi]. destruct (Hid _ _ Hi) as [_ Hr]. lia.
Qed.

Lemma pool_step_inv (w w' : World) : pool_inv w -> pool_step w w' -> pool_inv w'.
Proof.
  intros Hinv Hstep. destruct Hstep as [now spawned w|r op w|r out w|now w|w|w].
  - unfold acquire_section.
    destruct (scan (store w) (registry w)) as [r|] eqn:Hs.
    + destruct (store w !! r) as [i|] eqn:Hi; simpl; [|exact Hinv].
      apply (inv_update w _ r i (set_locked true i)); simpl; auto.
      destruct Hinv as (_ & Hnd & _). exact Hnd.
    + destruct (negb spawned && Nat.ltb (length (registry w)) POOL_MAX_INSTANCES); simpl;
        [|exact Hinv].
      pose proof (fresh_not_registered w Hinv) as Hfr.
      destruct Hinv as (Hwf & Hnd & Hid & Hc).
      split; [|split; [|split]]; simpl.
      * unfold wf_registry in *. apply List.Forall_forall. intros x Hx. simpl in Hx |- *.
        rewrite List.Forall_forall in Hwf.
        apply in_app_or in Hx as [Hx|[<-|[]]].
        -- rewrite lookup_insert_ne by (intros Heq; exact (Hfr _ Hx (eq_sym Heq))). apply Hwf. exact Hx.
        -- rewrite lookup_insert_eq. eexists; reflexivity.
      * apply NoDup_app. split; [exact Hnd|split; [|apply NoDup_singleton]].
        intros x Hx Hx'. apply list_elem_of_singleton in Hx'. subst x.
        apply list_elem_of_In in Hx. exact (Hfr _ Hx eq_refl).
      * intros x j Hj. simpl in Hj |- *. destruct (decide (x = S (id_counter w))) as [->|Hne].
        -- rewrite lookup_insert_eq in Hj. injection Hj as <-. simpl. lia.
        -- rewrite lookup_insert_ne in Hj by congruence. destruct (Hid _ _ Hj). lia.
      * rewrite List.filter_app, length_app.
        rewrite filter_perm_insert_notin by exact Hfr.
        assert (E : perm_ref (<[S (id_counter w) := set_locked true
                     (new_instance (S (id_counter w)) false now)]> (store w))
                     (S (id_counter w)) = false)
          by (unfold perm_ref; rewrite lookup_insert_eq; reflexivity).
        cbn [List.filter]. rewrite E. simpl. lia.
  - unfold inst_op_world. destruct (store w !! r) as [i|] eqn:Hi; [|exact Hinv].
    destruct (apply_inst_op_ident op (os w) i) as [H1 H2].
    destruct (apply_inst_op op (os w) i) as [o i'] eqn:Ha. simpl in H1, H2.
    apply (inv_update w _ r i i'); simpl; auto.
    destruct Hinv as (_ & Hnd & _). exact Hnd.
  - unfold start_instance. destruct (store w !! r) as [i|] eqn:Hi; [|exact Hinv].
    destruct (start_ident (os w) out i) as [S1 S2].
    destruct (start (os w) out i) as [[o1 i1] [e|]] eqn:Hst; simpl in S1, S2.
    + pose proof (quit_fields o1 i1) as (Q1 & Q2 & _).
      destruct (quit o1 i1) as [o2 i2]. simpl in Q1, Q2.
      apply (inv_update w _ r i (fst (lock_release i2))); simpl.
      * exact Hinv.
      * exact Hi.
      * reflexivity.
      * unfold lock_release. destruct (locked i2); simpl; congruence.
      * unfold lock_release. destruct (locked i2); simpl; congruence.
      * reflexivity.
      * intros x Hx. exact (in_remove_first _ _ _ Hx).
      * apply NoDup_remove_first. destruct Hinv as (_ & Hnd & _). exact Hnd.
      * apply filter_remove_first_le.
    + apply (inv_update w _ r i (fst (lock_release i1))); simpl; auto.
      * unfold lock_release. destruct (locked i1); simpl; congruence.
      * unfold lock_release. destruct (locked i1); simpl; congruence.
      * destruct Hinv as (_ & Hnd & _). exact Hnd.
  - unfold reaper_phase1. simpl.
    destruct (fold_remove_props (perm_ref (store w))
                (List.filter (reap_ref now (store w)) (registry w)) (registry w))
      as (H1 & H2 & H3).
    apply (inv_registry w); simpl; auto.
    apply H2. destruct Hinv as (_ & Hnd & _). exact Hnd.
  - unfold shutdown_begin. destruct (stopped w); simpl; [exact Hinv|].
    apply (inv_registry w); simpl; auto. destruct Hinv as (_ & Hnd & _). exact Hnd.
  - unfold shutdown_clear. apply (inv_registry w); simpl; auto.
    + intros x [].
    + constructor.
    + lia.
Qed.

Lemma w_full_reachable : reachable w_full.
Proof.
  unfold w_full.
  apply (reach_step (fst (fst (fst (acquire_section 1 false w_started))))).
  - apply (reach_step w_started).
    + apply reach_start. reflexivity.
    + apply step_acquire_section.
  - apply step_acquire_section.
Qed.

Lemma pool_inv_of_reachable (w : World) (H : reachable w) : pool_inv w.
Proof.
  induction H as [now out Hok|w w' Hr IH Hs].
  - unfold pool_start in *. cbn [id_counter os init_world] in *.
    destruct (start_ident {| next_proc := 1; os_log := [] |} out (new_instance 1 true now))
      as [S1 S2].
    destruct (start {| next_proc := 1; os_log := [] |} out (new_instance 1 true now))
      as [[o1 p1] [e|]]; cbn [fst snd] in *; [discriminate|].
    split; [|split; [|split]]; cbn [store registry id_counter init_world].
    + unfold wf_registry. cbn [store registry app].
      constructor; [cbn beta; rewrite lookup_insert_eq; eexists; reflexivity|constructor].
    + cbn [app]. constructor; [intros Hin; inversion Hin|constructor].
    + intros r j Hj. destruct (decide (r = 1%nat)) as [->|Hne].
      * rewrite lookup_insert_eq in Hj. injection Hj as <-. split; [exact S1|lia].
      * rewrite lookup_insert_ne in Hj by congruence. rewrite lookup_empty in Hj. discriminate.
    + cbn [store registry app List.filter].
      destruct (perm_ref (<[1%nat := set_locked true p1]> ∅) 1); simpl; lia.
  - exact (pool_step_inv w w' IH Hs).
Qed.

(** In every state of the running service, each registry entry names an
    instance of the store, the registry has no duplicates, every stored
    instance carries its own key as [id] and that key lies between 1 and
    [_id_counter], and at most one registry entry is permanent. *)
Theorem reachable_pool_inv (w : World) (H : reachable w) : pool_inv w.
Proof. exact (pool_inv_of_reachable w H). Qed.

Lemma reachable_pool_inv_witness :
  reachable w_full /\ length (registry w_full) = 3%nat /\ pool_inv w_full.
Proof.
  split; [exact w_full_reachable|split; [vm_compute; reflexivity|]].
  exact (reachable_pool_inv w_full w_full_reachable).
Defined.

Lemma scan_prefix (st : gmap nat BrowserInstance) (l : list nat) (r : nat) :
  scan st l = Some r ->
  exists pre post, l = pre ++ r :: post /\
    forall x, In x pre -> match st !! x with Some i => locked i = true | None => True end.
Proof.
  induction l as [|y t IH]; simpl; [discriminate|].
  assert (Hcons : forall pre post, t = pre ++ r :: post ->
            (forall x, In x pre -> match st !! x with Some i => locked i = true | None => True end) ->
            match st !! y with Some i => locked i = true | None => True end ->
            exists pre' post', y :: t = pre' ++ r :: post' /\
              forall x, In x pre' -> match st !! x with Some i => locked i = true | None => True end).
  { intros pre post -> Hpre Hy. exists (y :: pre), post. split; [reflexivity|].
    intros x [<-|Hx]; [exact Hy|exact (Hpre x Hx)]. }
  destruct (st !! y) as [i|] eqn:Hy.
  - destruct (locked i) eqn:Hl.
    + intros Hs. destruct (IH Hs) as (pre & post & Ht & Hpre).
      apply (Hcons pre post Ht Hpre). reflexivity.
    + intros Hs. injection Hs as ->. exists [], t. split; [reflexivity|]. intros x [].
  - intros Hs. destruct (IH Hs) as (pre & post & Ht & Hpre).
    apply (Hcons pre post Ht Hpre). exact I.
Qed.

Lemma scan_none (st : gmap nat BrowserInstance) (l : list nat) :
  scan st l = None <->
  forall x, In x l -> match st !! x with Some i => locked i = true | None => True end.
Proof.
  induction l as [|y t IH]; simpl; [split; [intros _ x []|reflexivity]|].
  destruct (st !! y) as [i|] eqn:Hy.
  - destruct (locked i) eqn:Hl.
    + rewrite IH. split.
      * intros H x [<-|Hx]; [rewrite Hy; exact Hl|exact (H x Hx)].
      * intros H x Hx. apply H. right. exact Hx.
    + split; [discriminate|]. intros H. specialize (H y (or_introl eq_refl)).
      rewrite Hy, Hl in H. discriminate.
  - rewrite IH. split.
    + intros H x [<-|Hx]; [rewrite Hy; exact I|exact (H x Hx)].
    + intros H x Hx. apply H. right. exact Hx.
Qed.

Lemma wf_locked_iff (w : World) (x : nat) :
  wf_registry w -> In x (registry w) ->
  (match store w !! x with Some i => locked i = true | None => True end <->
   exists i, store w !! x = Some i /\ locked i = true).
Proof.
  intros Hwf Hx. unfold wf_registry in Hwf. rewrite List.Forall_forall in Hwf.
  destruct (Hwf x Hx) as [i Hi]. rewrite Hi. split.
  - intros Hl. exists i. auto.
  - intros (j & Hj & Hl). injection Hj as ->. exact Hl.
Qed.

(** The locked section of [acquire] takes the first instance of the
    registry, in registry order, whose lock is free: every instance before
    it is locked. *)
Theorem acquire_section_first_free (now : Z) (sp : bool) (w : World) (r : nat) :
  wf_registry w ->
  snd (fst (fst (acquire_section now sp w))) = Some r ->
  exists pre post, registry w = pre ++ r :: post /\
    (forall x, In x pre -> exists i, store w !! x = Some i /\ locked i = true) /\
    exists i, store w !! r = Some i /\ locked i = false /\
      store (fst (fst (fst (acquire_section now sp w)))) = <[r := set_locked true i]> (store w).
Proof.
  intros Hwf Hg.
  destruct (acquire_section now sp w) as [[[w' got] sp'] nw] eqn:Ha. simpl in Hg |- *.
  destruct (acquire_section_got now sp w w' got sp' nw r Ha Hg)
    as (_ & _ & _ & _ & _ & i & Hi & Hl & Hst).
  unfold acquire_section in Ha.
  destruct (scan (store w) (registry w)) as [x|] eqn:Hs.
  - destruct (store w !! x) as [j|] eqn:Hx; injection Ha as _ Hgot _ _; subst got;
      [|discriminate]. injection Hg as ->.
    destruct (scan_prefix _ _ _ Hs) as (pre & post & Hreg & Hpre).
    exists pre, post. split; [exact Hreg|split].
    + intros y Hy. apply (wf_locked_iff w y Hwf).
      * rewrite Hreg. apply in_or_app. left. exact Hy.
      * exact (Hpre y Hy).
    + exists i. auto.
  - destruct (negb sp && Nat.ltb (length (registry w)) POOL_MAX_INSTANCES);
      injection Ha as _ Hgot _ _; subst got; discriminate.
Qed.

Lemma acquire_section_first_free_witness :
  wf_registry w_full /\
  snd (fst (fst (acquire_section 5 true (inst_op_world 2 (OpRelease 4) w_full)))) = Some 2%nat /\
  exists pre post, registry (inst_op_world 2 (OpRelease 4) w_full) = pre ++ 2%nat :: post /\
    (forall x, In x pre -> exists i, store (inst_op_world 2 (OpRelease 4) w_full) !! x = Some i /\
                                   locked i = true) /\
    exists i, store (inst_op_world 2 (OpRelease 4) w_full) !! 2%nat = Some i /\ locked i = false /\
      store (fst (fst (fst (acquire_section 5 true (inst_op_world 2 (OpRelease 4) w_full))))) =
      <[2%nat := set_locked true i]> (store (inst_op_world 2 (OpRelease 4) w_full)).
Proof.
  assert (Hwf : wf_registry (inst_op_world 2 (OpRelease 4) w_full)).
  { destruct (pool_inv_of_reachable (inst_op_world 2 (OpRelease 4) w_full)) as [H _].
    - apply (reach_step w_full); [exact w_full_reachable|apply step_inst_op].
    - exact H. }
  assert (Hg : snd (fst (fst (acquire_section 5 true (inst_op_world 2 (OpRelease 4) w_full))))
               = Some 2%nat) by (vm_compute; reflexivity).
  split; [destruct (pool_inv_of_reachable w_full w_full_reachable); assumption|].
  split; [exact Hg|].
  exact (acquire_section_first_free 5 true _ 2 Hwf Hg).
Defined.

(** The locked section of [acquire] creates a temp instance exactly when
    this call has not spawned yet, the registry is below
    [POOL_MAX_INSTANCES] and every registered instance is locked; the new
    instance's reference is [_id_counter + 1]. *)
Theorem acquire_section_spawn_iff (now : Z) (sp : bool) (w : World) (n : nat) :
  wf_registry w ->
  (snd (acquire_section now sp w) = Some n <->
   sp = false /\ (length (registry w) < POOL_MAX_INSTANCES)%nat /\
   (forall x, In x (registry w) -> exists i, store w !! x = Some i /\ locked i = true) /\
   n = S (id_counter w)).
Proof.
  intros Hwf. unfold acquire_section.
  destruct (scan (store w) (registry w)) as [x|] eqn:Hs.
  - destruct (scan_found _ _ _ Hs) as (Hin & i & Hi & Hl). rewrite Hi. simpl.
    split; [discriminate|]. intros (_ & _ & Hall & _).
    destruct (Hall x Hin) as (j & Hj & Hlj). congruence.
  - pose proof (proj1 (scan_none _ _) Hs) as Hall.
    assert (Hall' : forall x, In x (registry w) ->
                      exists i, store w !! x = Some i /\ locked i = true)
      by (intros y Hy; apply (wf_locked_iff w y Hwf Hy); exact (Hall y Hy)).
    destruct sp; simpl.
    + split; [discriminate|]. intros (H & _); discriminate.
    + destruct (Nat.ltb (length (registry w)) POOL_MAX_INSTANCES) eqn:Hlt; simpl.
      * apply Nat.ltb_lt in Hlt. split.
        -- intros Hn. injection Hn as <-. auto.
        -- intros (_ & _ & _ & ->). reflexivity.
      * apply Nat.ltb_ge in Hlt. split; [discriminate|]. intros (_ & H & _). lia.
Qed.

Lemma acquire_section_spawn_iff_witness :
  wf_registry w_started /\ snd (acquire_section 1 false w_started) = Some 2%nat.
Proof.
  assert (Hwf : wf_registry w_started).
  { destruct (pool_inv_of_reachable w_started) as [H _]; [|exact H].
    apply reach_start. reflexivity. }
  split; [exact Hwf|].
  apply (acquire_section_spawn_iff 1 false w_started 2 Hwf).
  split; [reflexivity|split; [vm_compute; lia|split; [|reflexivity]]].
  intros x Hx. vm_compute in Hx. destruct Hx as [<-|[]].
  eexists; split; [vm_compute; reflexivity|reflexivity].
Defined.

Lemma quit_refs_meta (xs : list nat) :
  forall w, stopped (fold_left (fun w' r => quit_ref r w') xs w) = stopped w /\
            id_counter (fold_left (fun w' r => quit_ref r w') xs w) = id_counter w.
Proof.
  induction xs as [|x xs IH]; intros w; simpl; [auto|].
  destruct (IH (quit_ref x w)) as [H1 H2]. rewrite H1, H2.
  unfold quit_ref. destruct (store w !! x) as [i|]; [destruct (quit (os w) i)|]; auto.
Qed.

Lemma shutdown_stopped (w : World) : stopped w = true -> shutdown w = w.
Proof. intros H. unfold shutdown, shutdown_begin. rewrite H. reflexivity. Qed.

Lemma shutdown_meta (w : World) :
  stopped (shutdown w) = true /\
  (stopped w = false -> registry (shutdown w) = [] /\ id_counter (shutdown w) = id_counter w).
Proof.
  unfold shutdown, shutdown_begin. destruct (stopped w) eqn:Hs; simpl.
  - split; [exact Hs|discriminate].
  - destruct (quit_refs_meta (registry w)
      {| os := os w; store := store w; registry := registry w;
         id_counter := id_counter w; stopped := true |}) as [H1 H2].
    simpl in H1, H2. unfold shutdown_clear, set_registry. simpl. auto.
Qed.

(** [shutdown] on a running pool quits every registered instance, busy or
    idle (its driver is dropped and it is no longer alive), leaves the
    registry empty and marks the pool stopped; a second call changes
    nothing. *)
Theorem shutdown_quits_all (w : World) :
  wf_registry w -> stopped w = false ->
  registry (shutdown w) = [] /\ stopped (shutdown w) = true /\
  (forall r, In r (registry w) -> quit_done r (shutdown w)) /\
  shutdown (shutdown w) = shutdown w.
Proof.
  intros Hwf Hs. destruct (shutdown_meta w) as [Hst Hm]. destruct (Hm Hs) as [Hreg _].
  split; [exact Hreg|split; [exact Hst|split]].
  - intros r Hr. unfold shutdown, shutdown_begin. rewrite Hs. simpl.
    unfold shutdown_clear, quit_done, set_registry. simpl.
    destruct (quit_refs_done (registry w)
      {| os := os w; store := store w; registry := registry w;
         id_counter := id_counter w; stopped := true |} r) as (i & Hi & Ha & Hd).
    + simpl. intros Hin. unfold wf_registry in Hwf. rewrite List.Forall_forall in Hwf.
      exact (Hwf r Hin).
    + left. exact Hr.
    + exists i. auto.
  - exact (shutdown_stopped _ Hst).
Qed.

Lemma shutdown_quits_all_witness :
  wf_registry w_full /\ stopped w_full = false /\
  registry (shutdown w_full) = [] /\ stopped (shutdown w_full) = true /\
  (forall r, In r (registry w_full) -> quit_done r (shutdown w_full)) /\
  shutdown (shutdown w_full) = shutdown w_full.
Proof.
  assert (Hwf : wf_registry w_full)
    by (destruct (pool_inv_of_reachable w_full w_full_reachable); assumption).
  assert (Hs : stopped w_full = false) by reflexivity.
  split; [exact Hwf|split; [exact Hs|exact (shutdown_quits_all w_full Hwf Hs)]].
Defined.

(** [acquire] never looks at [_stopped]: a request served after [shutdown]
    creates and registers a new temp instance, and a later [shutdown]
    returns at once, so that instance is never quit by it. *)
Theorem acquire_after_shutdown_unmanaged (now : Z) (w : World) :
  stopped w = false ->
  let w1 := shutdown w in
  let w2 := fst (fst (fst (acquire_section now false w1))) in
  snd (acquire_section now false w1) = Some (S (id_counter w)) /\
  registry w2 = [S (id_counter w)] /\
  store w2 !! S (id_counter w) = Some (set_locked true (new_instance (S (id_counter w)) false now)) /\
  shutdown w2 = w2.
Proof.
  intros Hs w1 w2. destruct (shutdown_meta w) as [Hst Hm]. destruct (Hm Hs) as [Hreg Hid].
  subst w1 w2. unfold acquire_section. rewrite Hreg, Hid. simpl.
  split; [reflexivity|split; [reflexivity|split]].
  - apply lookup_insert_eq.
  - apply shutdown_stopped. simpl. exact Hst.
Qed.

Lemma acquire_after_shutdown_unmanaged_witness :
  stopped w_full = false /\
  snd (acquire_section 9 false (shutdown w_full)) = Some 4%nat.
Proof.
  split; [reflexivity|].
  exact (proj1 (acquire_after_shutdown_unmanaged 9 w_full eq_refl)).
Defined.

Lemma in_remove_first_nodup (x y : nat) (l : list nat) :
  NoDup l -> (In y (remove_first x l) <-> In y l /\ y <> x).
Proof.
  induction l as [|z t IH]; intros Hnd; simpl; [tauto|].
  inversion Hnd as [|? ? Hz Ht]; subst.
  destruct (Nat.eqb x z) eqn:Hxz.
  - apply Nat.eqb_eq in Hxz. subst z. split.
    + intros Hy. split; [right; exact Hy|]. intros ->. apply Hz.
      apply list_elem_of_In. exact Hy.
    + intros [[->|Hy] Hne]; [congruence|exact Hy].
  - apply Nat.eqb_neq in Hxz. simpl. rewrite (IH Ht). split.
    + intros [->|[Hy Hne]]; [split; [left; reflexivity|congruence]|auto].
    + intros [[->|Hy] Hne]; auto.
Qed.

(** [_start_instance] always frees the pre-lock.  When Chrome starts, the
    instance stays registered, alive and with a driver; when it fails, the
    instance is taken out of the registry (which keeps all other entries)
    and quit. *)
Theorem start_instance_outcome (r : nat) (out : driver_outcome) (w : World) (i : BrowserInstance) :
  NoDup (registry w) -> store w !! r = Some i -> locked i = true ->
  exists i', store (start_instance r out w) !! r = Some i' /\ locked i' = false /\
    match out with
    | DriverStarts _ =>
        registry (start_instance r out w) = registry w /\ alive i' = true /\ is_Some (driver i')
    | DriverFails =>
        (forall x, In x (registry (start_instance r out w)) <-> In x (registry w) /\ x <> r) /\
        alive i' = false /\ driver i' = None
    end.
Proof.
  intros Hnd Hi Hl. unfold start_instance. rewrite Hi.
  destruct out as [|rd]; simpl.
  - pose proof (quit_fields (os w) i) as (_&_&Hlk&_&_&_&Ha&Hd&_).
    destruct (quit (os w) i) as [o2 i2]. simpl in Hlk, Ha, Hd. simpl.
    unfold lock_release. rewrite Hlk, Hl. simpl.
    eexists. split; [apply lookup_insert_eq|]. simpl.
    split; [reflexivity|]. split; [|split; [exact Ha|exact Hd]].
    intros x. apply in_remove_first_nodup. exact Hnd.
  - rewrite Hl. simpl. eexists. split; [apply lookup_insert_eq|].
    split; [reflexivity|]. split; [reflexivity|split; [reflexivity|eexists; reflexivity]].
Qed.

Lemma start_instance_outcome_witness :
  NoDup (registry w_full) /\ store w_full !! 2%nat = Some (set_locked true (new_instance 2 false 1)) /\
  exists i', store (start_instance 2 DriverFails w_full) !! 2%nat = Some i' /\ locked i' = false /\
    (forall x, In x (registry (start_instance 2 DriverFails w_full)) <->
               In x (registry w_full) /\ x <> 2%nat) /\
    alive i' = false /\ driver i' = None.
Proof.
  assert (Hnd : NoDup (registry w_full))
    by (destruct (pool_inv_of_reachable w_full w_full_reachable) as (_ & H & _); exact H).
  assert (Hi : store w_full !! 2%nat = Some (set_locked true (new_instance 2 false 1)))
    by (vm_compute; reflexivity).
  split; [exact Hnd|split; [exact Hi|]].
  exact (start_instance_outcome 2 DriverFails w_full _ Hnd Hi eq_refl).
Defined.

(** When the instance [acquire] obtained fails its liveness probe and
    Chrome cannot be restarted by [revive], [acquire] raises the error of
    [Driver(...)] with the instance still registered and still locked (its
    caller never obtains it, so no one will release it), its driver gone. *)
Theorem acquire_revive_failure_leaks_lock (pr : probe) (r : nat) (w : World) (i : BrowserInstance) :
  store w !! r = Some i -> locked i = true ->
  snd (is_alive (pr_alive pr) i) = false -> pr_revive pr = DriverFails ->
  snd (post_acquire pr r w) = AcquireRaised DriverError /\
  registry (fst (post_acquire pr r w)) = registry w /\
  (exists i', store (fst (post_acquire pr r w)) !! r = Some i' /\
              locked i' = true /\ alive i' = false /\ driver i' = None).
Proof.
  intros Hi Hl Hdead Hrev. unfold post_acquire. rewrite Hi.
  assert (Hl1 : locked (fst (is_alive (pr_alive pr) i)) = true).
  { unfold is_alive. destruct (negb (alive i)); [exact Hl|].
    destruct (driver i); [destruct (pr_alive pr)|]; exact Hl. }
  destruct (is_alive (pr_alive pr) i) as [i1 ok]. simpl in Hdead, Hl1. subst ok.
  unfold revive. rewrite Hrev.
  pose proof (quit_fields (os w) i1) as (_&_&Hlk&_&_&_&Ha&Hd&_).
  destruct (quit (os w) i1) as [o2 i2]. simpl in Hlk, Ha, Hd. simpl.
  split; [reflexivity|split; [reflexivity|]].
  exists (reset_cookie_flags i2). split; [apply lookup_insert_eq|]. simpl.
  split; [congruence|auto].
Qed.

Lemma acquire_revive_failure_leaks_lock_witness :
  snd (post_acquire (mkProbe false DriverFails 7) 2 w_full) = AcquireRaised DriverError.
Proof.
  assert (Hi : store w_full !! 2%nat = Some (set_locked true (new_instance 2 false 1)))
    by (vm_compute; reflexivity).
  exact (proj1 (acquire_revive_failure_leaks_lock (mkProbe false DriverFails 7) 2 w_full _
                  Hi eq_refl eq_refl eq_refl)).
Defined.

Lemma append_nonempty (cur : string) (c : Ascii.ascii) :
  String.eqb (cur +:+ String c EmptyString) "" = false.
Proof. destruct cur; reflexivity. Qed.

Lemma split_ws_all_space (t : string) (cur : string) :
  py_rstrip t = "" -> split_ws_aux cur t = if String.eqb cur "" then [] else [cur].
Proof.
  revert cur. induction t as [|c t IH]; intros cur H; simpl; [reflexivity|].
  simpl in H. destruct (py_rstrip t) eqn:Ht; [|discriminate].
  destruct (py_space c); [|discriminate].
  rewrite (IH "" eq_refl). simpl. rewrite app_nil_r. reflexivity.
Qed.

Lemma split_ws_rstrip (s : string) (cur : string) :
  split_ws_aux cur (py_rstrip s) = split_ws_aux cur s.
Proof.
  revert cur. induction s as [|c t IH]; intros cur; simpl; [reflexivity|].
  destruct (py_rstrip t) as [|a b] eqn:Ht.
  - destruct (py_space c) eqn:Hc; simpl; rewrite ?Hc.
    + rewrite (split_ws_all_space t "" Ht). simpl. rewrite app_nil_r. reflexivity.
    + rewrite (split_ws_all_space t _ Ht). rewrite append_nonempty. reflexivity.
  - simpl. destruct (py_space c).
    + f_equal. rewrite <- (IH ""). reflexivity.
    + rewrite <- IH. reflexivity.
Qed.

Lemma split_ws_lstrip (s : string) : split_ws_aux "" (py_lstrip s) = split_ws_aux "" s.
Proof.
  induction s as [|c t IH]; simpl; [reflexivity|].
  destruct (py_space c) eqn:Hc; [exact IH|]. simpl. rewrite ?Hc. reflexivity.
Qed.

Lemma split_ws_strip (s : string) : split_ws (py_strip s) = split_ws s.
Proof. unfold split_ws, py_strip. rewrite split_ws_rstrip. apply split_ws_lstrip. Qed.

Lemma split_ws_nonempty (s : string) :
  forall cur p, In p (split_ws_aux cur s) -> p <> "".
Proof.
  induction s as [|c t IH]; intros cur p Hp; simpl in Hp.
  - destruct (String.eqb cur "") eqn:E; [destruct Hp|].
    destruct Hp as [<-|[]]. intros ->. discriminate.
  - destruct (py_space c).
    + apply in_app_or in Hp as [Hp|Hp]; [|exact (IH _ _ Hp)].
      destruct (String.eqb cur "") eqn:E; [destruct Hp|].
      destruct Hp as [<-|[]]. intros ->. discriminate.
    + exact (IH _ _ Hp).
Qed.

(** [_kill_orphaned_chromedrivers] sends [kill -9] to exactly the
    whitespace-separated tokens of each target's [pgrep -f] output, for the
    targets whose [pgrep] ran, except the current process's own pid; the
    parent process's pid is not excluded. *)
Theorem kill_orphaned_targets (pgrep : string -> option string) (cur p : string) :
  In p (kill_orphaned_chromedrivers pgrep cur) <->
  p <> cur /\
  exists t out, In t orphan_targets /\ pgrep t = Some out /\ In p (split_ws out).
Proof.
  unfold kill_orphaned_chromedrivers. rewrite in_flat_map. split.
  - intros (t & Ht & Hp). destruct (pgrep t) as [out|] eqn:Ho; [|destruct Hp].
    unfold orphan_pids in Hp. apply filter_In in Hp as [Hp Hne].
    apply filter_In in Hp as [Hp _]. rewrite split_ws_strip in Hp.
    split.
    + intros ->. rewrite String.eqb_refl in Hne. discriminate.
    + exists t, out. auto.
  - intros (Hne & t & out & Ht & Ho & Hp). exists t. split; [exact Ht|].
    rewrite Ho. unfold orphan_pids. apply filter_In. split.
    + apply filter_In. split; [rewrite split_ws_strip; exact Hp|].
      destruct (String.eqb p "") eqn:E; [|reflexivity].
      apply String.eqb_eq in E. exfalso. exact (split_ws_nonempty out "" p Hp E).
    + destruct (String.eqb p cur) eqn:E; [|reflexivity].
      apply String.eqb_eq in E. contradiction.
Qed.

(* ------------------------------------------------------------------ *)
(** ** The image pipeline *)

Lemma replace_char_get (a b : Ascii.ascii) (s : string) (n : nat) :
  String.get n (replace_char a b s) =
  option_map (fun c => if Ascii.eqb c a then b else c) (String.get n s).
Proof.
  revert n. induction s as [|c t IH]; intros n; [reflexivity|].
  destruct n; simpl; [reflexivity|apply IH].
Qed.

Lemma replace_char_length (a b : Ascii.ascii) (s : string) :
  String.length (replace_char a b s) = String.length s.
Proof. induction s as [|c t IH]; simpl; [reflexivity|rewrite IH; reflexivity]. Qed.

Lemma has_char_get (ch : Ascii.ascii) (s : string) :
  has_char ch s = true <-> exists n, String.get n s = Some ch.
Proof.
  induction s as [|c t IH]; simpl.
  - split; [discriminate|intros [n Hn]; destruct n; discriminate].
  - rewrite orb_true_iff, IH, Ascii.eqb_eq. split.
    + intros [->|[n Hn]]; [exists 0%nat; reflexivity|exists (S n); exact Hn].
    + intros [[|n] Hn]; simpl in Hn; [injection Hn as ->; left; reflexivity|right; eauto].
Qed.

(** The folder name [scrape_product_details] writes to and [get_image]
    reads from keeps the barcode's length; a space becomes [_], a slash or
    backslash becomes [-], every other character (the dot included) is
    kept at its place; so no path separator is left in it. *)
Theorem sanitize_barcode_chars (barcode : string) :
  String.length (sanitize_barcode barcode) = String.length barcode /\
  (forall n c, String.get n barcode = Some c ->
     String.get n (sanitize_barcode barcode) =
       Some (if Ascii.eqb c " " then "_"%char
             else if Ascii.eqb c "/" || Ascii.eqb c "\" then "-"%char else c)) /\
  has_char "/" (sanitize_barcode barcode) = false /\
  has_char "\" (sanitize_barcode barcode) = false /\
  has_char " " (sanitize_barcode barcode) = false.
Proof.
  assert (Hget : forall n c, String.get n barcode = Some c ->
     String.get n (sanitize_barcode barcode) =
       Some (if Ascii.eqb c " " then "_"%char
             else if Ascii.eqb c "/" || Ascii.eqb c "\" then "-"%char else c)).
  { intros n c Hn. unfold sanitize_barcode. rewrite !replace_char_get, Hn. simpl.
    destruct (Ascii.eqb c " ") eqn:E1; [reflexivity|].
    destruct (Ascii.eqb c "/") eqn:E2; [reflexivity|]. simpl.
    destruct (Ascii.eqb c "\") eqn:E3; reflexivity. }
  assert (Hnone : forall ch, ch = "/"%char \/ ch = "\"%char \/ ch = " "%char ->
            has_char ch (sanitize_barcode barcode) = false).
  { intros ch Hch. apply not_true_is_false. rewrite has_char_get. intros [n Hn].
    destruct (String.get n barcode) as [c|] eqn:Hb.
    - rewrite (Hget n c Hb) in Hn. injection Hn as Hn.
      destruct (Ascii.eqb c " ") eqn:E1; [destruct Hch as [-> | [-> | ->]]; discriminate|].
      destruct (Ascii.eqb c "/" || Ascii.eqb c "\") eqn:E2;
        [destruct Hch as [-> | [-> | ->]]; discriminate|].
      subst ch. apply orb_false_iff in E2 as [E2 E3].
      destruct Hch as [-> | [-> | ->]]; [rewrite Ascii.eqb_refl in E2|rewrite Ascii.eqb_refl in E3|
        rewrite Ascii.eqb_refl in E1]; discriminate.
    - unfold sanitize_barcode in Hn. rewrite !replace_char_get, Hb in Hn. discriminate. }
  split; [unfold sanitize_barcode; rewrite !replace_char_length; reflexivity|].
  split; [exact Hget|]. split; [apply Hnone; auto|split; apply Hnone; auto].
Qed.

Lemma split_on_nonempty (sep : Ascii.ascii) (s : string) : split_on sep s <> [].
Proof.
  destruct s as [|c t]; simpl; [discriminate|].
  destruct (Ascii.eqb c sep); [discriminate|]. destruct (split_on sep t); discriminate.
Qed.

(** Every piece of [s.split(sep)] is free of [sep], and a character of a
    piece is a character of [s]. *)
Lemma split_on_pieces (sep : Ascii.ascii) (s : string) :
  forall p, In p (split_on sep s) ->
    has_char sep p = false /\ (forall ch, has_char ch p = true -> has_char ch s = true).
Proof.
  induction s as [|c t IH]; intros p Hp; simpl in Hp.
  - destruct Hp as [<-|[]]. split; [reflexivity|discriminate].
  - destruct (Ascii.eqb c sep) eqn:Ec.
    + destruct Hp as [<-|Hp]; [split; [reflexivity|discriminate]|].
      destruct (IH p Hp) as [H1 H2]. split; [exact H1|].
      intros ch Hch. simpl. rewrite (H2 ch Hch). apply orb_true_r.
    + destruct (split_on sep t) as [|x rest] eqn:Hs.
      * destruct Hp as [<-|[]]. simpl. rewrite Ec. split; [reflexivity|].
        intros ch Hch. simpl in Hch. simpl. rewrite orb_false_r in Hch. rewrite Hch. reflexivity.
      * destruct Hp as [<-|Hp].
        -- destruct (IH x (or_introl eq_refl)) as [H1 H2]. simpl. rewrite Ec, H1.
           split; [reflexivity|]. intros ch Hch. simpl in Hch |- *.
           apply orb_true_iff in Hch as [Hch|Hch]; [rewrite Hch; reflexivity|].
           rewrite (H2 ch Hch). apply orb_true_r.
        -- destruct (IH p (or_intror Hp)) as [H1 H2]. split; [exact H1|].
           intros ch Hch. simpl. rewrite (H2 ch Hch). apply orb_true_r.
Qed.

Lemma last_in (l : list string) : l <> [] -> In (List.last l "") l.
Proof.
  induction l as [|x t IH]; intros Hl; [contradiction|].
  destruct t as [|y t']; [left; reflexivity|].
  right. apply IH. discriminate.
Qed.

Lemma hd_in (l : list string) : l <> [] -> In (List.hd "" l) l.
Proof. destruct l; [contradiction|left; reflexivity]. Qed.

Lemma image_ext_dot (img_url : string) :
  exists x, image_ext img_url = "." +:+ x /\
    has_char "." x = false /\ has_char "/" x = false /\ has_char "?" x = false.
Proof.
  unfold image_ext.
  set (url_path := List.hd "" (split_on "?" img_url)).
  set (b := List.last (split_on "/" url_path) "").
  assert (Hup : has_char "?" url_path = false).
  { exact (proj1 (split_on_pieces "?" img_url url_path
                    (hd_in _ (split_on_nonempty _ _)))). }
  assert (Hb : has_char "/" b = false /\ has_char "?" b = false).
  { destruct (split_on_pieces "/" url_path b) as [H1 H2];
      [apply last_in, split_on_nonempty|].
    split; [exact H1|]. apply not_true_is_false. intros Hq.
    rewrite (H2 _ Hq) in Hup. discriminate. }
  destruct (has_char "." b).
  - set (x := List.last (split_on "." b) "").
    destruct (split_on_pieces "." b x) as [H1 H2]; [apply last_in, split_on_nonempty|].
    exists x. split; [reflexivity|]. split; [exact H1|].
    destruct Hb as [Hb1 Hb2].
    split; apply not_true_is_false; intros Hc; rewrite (H2 _ Hc) in *; discriminate.
  - exists "jpg". repeat split.
Qed.

(** The extension given to a downloaded image is a dot followed by a text
    with no dot, no slash and no question mark: the file is written
    directly inside the barcode's folder, whatever the URL. *)
Theorem image_ext_shape (img_url : string) :
  exists x, image_ext img_url = "." +:+ x /\
    has_char "." x = false /\ has_char "/" x = false /\ has_char "?" x = false.
Proof. exact (image_ext_dot img_url). Qed.

Lemma download_images_imap (folder : string) (fetch : string -> dl_outcome)
    (image_urls : list string) :
  download_images folder fetch 0 image_urls =
  (imap (fun i u => image_filename folder (Z.of_nat i + 1) (image_ext u))
        (List.filter (dl_saved fetch) image_urls),
   Z.of_nat (length (List.filter (dl_saved fetch) image_urls))).
Proof.
  assert (G : forall c, download_images folder fetch c image_urls =
    (imap (fun i u => image_filename folder (c + Z.of_nat i + 1) (image_ext u))
          (List.filter (dl_saved fetch) image_urls),
     c + Z.of_nat (length (List.filter (dl_saved fetch) image_urls)))).
  { induction image_urls as [|u rest IH]; intros c; simpl; [f_equal; lia|].
    assert (Hd : dl_saved fetch u =
                 match fetch u with DlStatus code => Z.eqb code 200 | _ => false end)
      by reflexivity.
    rewrite Hd.
    destruct (fetch u) as [|code|]; [apply IH| |apply IH].
    destruct (Z.eqb code 200); [|apply IH].
    rewrite IH. simpl. f_equal; [f_equal|].
    - f_equal. lia.
    - apply imap_ext. intros i x _. simpl. f_equal. lia.
    - lia. }
  exact (G 0).
Qed.

(** The download loop numbers the files it writes [image_1], [image_2],
    ... in the order of the URLs whose download answered 200 and could be
    written, skipping failed ones without leaving a gap; the count it
    reports is the number of files written. *)
Theorem download_images_numbering (folder : string) (fetch : string -> dl_outcome)
    (image_urls : list string) :
  download_images folder fetch 0 image_urls =
  (imap (fun i u => image_filename folder (Z.of_nat i + 1) (image_ext u))
        (List.filter (dl_saved fetch) image_urls),
   Z.of_nat (length (List.filter (dl_saved fetch) image_urls))).
Proof. exact (download_images_imap folder fetch image_urls). Qed.

Lemma pretty_N_go_no_dot (x : N) : forall s,
  has_char "." (pretty_N_go x s) = has_char "." s.
Proof.
  induction (N.lt_wf_0 x) as [x _ IH]; intros s.
  destruct (decide (x = 0%N)) as [->|Hx]; [rewrite pretty_N_go_0; reflexivity|].
  rewrite pretty_N_go_step by lia. rewrite IH by (apply N.div_lt; lia).
  simpl. assert (Ascii.eqb (pretty_N_char (x `mod` 10)%N) "." = false) as -> by
    (unfold pretty_N_char; repeat case_match; reflexivity).
  reflexivity.
Qed.

Lemma pretty_Z_no_dot (z : Z) : has_char "." (pretty z) = false.
Proof.
  assert (HN : forall n : N, has_char "." (pretty n) = false).
  { intros n. unfold pretty, pretty_N. case_decide; [reflexivity|].
    rewrite pretty_N_go_no_dot. reflexivity. }
  destruct z as [|p|p]; [reflexivity|apply HN|]. simpl. apply HN.
Qed.

Lemma string_app_cancel_l (a x y : string) : a +:+ x = a +:+ y -> x = y.
Proof. induction a as [|c t IH]; simpl; [auto|]. intros H. injection H as H. auto. Qed.

Lemma dot_split (a b x y : string) :
  has_char "." a = false -> has_char "." b = false ->
  a +:+ String "." x = b +:+ String "." y -> a = b /\ x = y.
Proof.
  revert b. induction a as [|c t IH]; intros b Ha Hb H; destruct b as [|d u]; simpl in *.
  - injection H as ->. auto.
  - injection H as <- _. rewrite Ascii.eqb_refl in Hb. discriminate.
  - injection H as -> _. rewrite Ascii.eqb_refl in Ha. discriminate.
  - apply orb_false_iff in Ha as [_ Ha]. apply orb_false_iff in Hb as [_ Hb].
    injection H as -> H. destruct (IH u Ha Hb H) as [-> ->]. auto.
Qed.

Lemma image_filename_inj (folder x y : string) (k j : Z) :
  has_char "." x = false -> has_char "." y = false ->
  image_filename folder k ("." +:+ x) = image_filename folder j ("." +:+ y) -> k = j /\ x = y.
Proof.
  intros Hx Hy H. unfold image_filename in H.
  apply string_app_cancel_l in H. apply (string_app_cancel_l "/image_") in H.
  simpl in H. destruct (dot_split _ _ _ _ (pretty_Z_no_dot k) (pretty_Z_no_dot j) H) as [Hp ->].
  split; [apply (inj pretty) in Hp; exact Hp|reflexivity].
Qed.

Lemma last_char_not_slash (s : string) :
  s <> "" -> has_char "/" s = false ->
  String.eqb (String.substring (String.length s - 1) 1 s) "/" = false.
Proof.
  induction s as [|c t IH]; intros Hs Hc; [contradiction|].
  simpl in Hc. apply orb_false_iff in Hc as [Hc Ht].
  destruct t as [|c' t'].
  - cbn [String.length Nat.sub String.substring].
    destruct (String.eqb (String c "") "/") eqn:E; [|reflexivity].
    apply String.eqb_eq in E. injection E as ->. discriminate.
  - simpl String.length. replace (S (S (String.length t')) - 1)%nat
      with (S (S (String.length t') - 1))%nat by lia.
    simpl String.substring at 1. apply IH; [discriminate|exact Ht].
Qed.

Lemma get_image_join (barcode name : string) :
  barcode <> "" -> String.prefix "/" name = false ->
  os_path_join ("images/" +:+ sanitize_barcode barcode) name =
  images_folder barcode +:+ "/" +:+ name.
Proof.
  intros Hb Hn. unfold os_path_join. rewrite Hn.
  destruct (sanitize_barcode_chars barcode) as (Hlen & _ & Hsl & _).
  set (s := sanitize_barcode barcode) in *.
  assert (Hs : s <> "").
  { intros E. apply Hb. destruct barcode; [reflexivity|]. rewrite E in Hlen. discriminate. }
  assert (E : String.eqb (String.substring (String.length ("images/" +:+ s) - 1) 1
                            ("images/" +:+ s)) "/" = false).
  { destruct s as [|c t]; [contradiction|].
    replace (String.length ("images/" +:+ String c t) - 1)%nat
      with (7 + (String.length (String c t) - 1))%nat
      by (simpl; lia).
    change (String.substring (7 + (String.length (String c t) - 1)) 1 ("images/" +:+ String c t))
      with (String.substring (String.length (String c t) - 1) 1 (String c t)).
    apply last_char_not_slash; [discriminate|exact Hsl]. }
  rewrite E. simpl. reflexivity.
Qed.

Lemma In_imap {A B : Type} (f : nat -> A -> B) (l : list A) (p : B) :
  In p (imap f l) -> exists i u, l !! i = Some u /\ p = f i u.
Proof.
  revert f. induction l as [|x t IH]; intros f Hp; simpl in Hp; [destruct Hp|].
  destruct Hp as [<-|Hp]; [exists 0%nat, x; auto|].
  destruct (IH _ Hp) as (i & u & Hi & ->). exists (S i), u. auto.
Qed.

Lemma image_exts_dot (e : string) :
  In e image_exts -> exists x, e = "." +:+ x /\ has_char "." x = false.
Proof.
  intros [<-|[<-|[<-|[<-|[]]]]]; eexists; split; reflexivity.
Qed.

(** [get_image(barcode, n)], whatever the filesystem answers to
    [os.path.exists], serves the first existing one of the paths
    [image_n.jpg], [image_n.jpeg], [image_n.png], [image_n.webp] in the
    folder the download loop writes to for [barcode] (non empty), and
    answers 404 when none exists.  The [n]-th image the loop saved is
    written under [image_n] with its own extension, a name among those
    paths exactly when that extension is one of the four; with another
    extension (such as [.JPG] or [.gif]) [get_image] never asks for its
    name, and only a filesystem that matches names loosely can lead a
    probe to it. *)
Theorem get_image_probe_names (barcode : string) (exists_ : string -> bool) (n : Z)
    (fetch : string -> dl_outcome) (image_urls : list string) (i : nat) (u : string) :
  barcode <> "" ->
  List.filter (dl_saved fetch) image_urls !! i = Some u ->
  get_image exists_ barcode n =
    match List.find (fun ext => exists_ (image_filename (images_folder barcode) n ext))
            image_exts with
    | Some ext => FileResponse (image_filename (images_folder barcode) n ext)
    | None => ImageHTTPException 404 "Image not found"
    end /\
  In (image_filename (images_folder barcode) (Z.of_nat i + 1) (image_ext u))
     (fst (download_images (images_folder barcode) fetch 0 image_urls)) /\
  (In (image_filename (images_folder barcode) (Z.of_nat i + 1) (image_ext u))
      (map (image_filename (images_folder barcode) (Z.of_nat i + 1)) image_exts) <->
   In (image_ext u) image_exts).
Proof.
  intros Hb Hu.
  set (F := images_folder barcode).
  split; [|split].
  - assert (Hjoin : forall c, os_path_join ("images/" +:+ sanitize_barcode barcode)
                      ("image_" +:+ pretty n +:+ c) = image_filename F n c).
    { intros c. rewrite get_image_join by (auto; reflexivity). reflexivity. }
    unfold get_image. cbn [image_exts]. rewrite !Hjoin.
    unfold image_exts. cbn [List.find].
    repeat match goal with |- context [exists_ ?p] => destruct (exists_ p) end;
      reflexivity.
  - rewrite download_images_imap. cbn [fst].
    apply list_elem_of_In. apply (list_elem_of_lookup_2 _ i).
    rewrite list_lookup_imap, Hu. reflexivity.
  - split.
    + intros Hin. apply in_map_iff in Hin as (ext & Heq & Hext).
      destruct (image_exts_dot ext Hext) as (y & -> & Hy).
      destruct (image_ext_dot u) as (x & Hx & Hxd & _). rewrite Hx in Heq |- *.
      apply image_filename_inj in Heq as [_ ->]; [exact Hext|exact Hy|exact Hxd].
    + intros Hin. apply in_map. exact Hin.
Qed.

(** A filesystem that matches names without regard to case, as the
    default macOS one does, holding the files a scrape of ["ab 1"] wrote:
    the second saved image, [image_2.JPG], is served through the probe
    for [image_2.jpg], a name the download loop never wrote. *)
Lemma get_image_probe_names_witness :
  get_image (fun p => existsb (fun q => String.eqb (lower p) (lower q))
               (fst (download_images (images_folder "ab 1")
                       (fun u => if String.eqb u "http://x/c.png" then DlRaises else DlStatus 200) 0
                       ["http://x/a.png"; "http://x/c.png"; "http://x/b.JPG"])))
            "ab 1" 2 = FileResponse "images/ab_1/image_2.jpg" /\
  In "images/ab_1/image_2.JPG"
     (fst (download_images (images_folder "ab 1")
             (fun u => if String.eqb u "http://x/c.png" then DlRaises else DlStatus 200) 0
             ["http://x/a.png"; "http://x/c.png"; "http://x/b.JPG"])) /\
  ~ In "images/ab_1/image_2.JPG" (map (image_filename "images/ab_1" 2) image_exts).
Proof.
  destruct (get_image_probe_names "ab 1"
              (fun p => existsb (fun q => String.eqb (lower p) (lower q))
                 (fst (download_images (images_folder "ab 1")
                         (fun u => if String.eqb u "http://x/c.png" then DlRaises else DlStatus 200) 0
                         ["http://x/a.png"; "http://x/c.png"; "http://x/b.JPG"]))) 2
              (fun u => if String.eqb u "http://x/c.png" then DlRaises else DlStatus 200)
              ["http://x/a.png"; "http://x/c.png"; "http://x/b.JPG"] 1 "http://x/b.JPG")
    as (H1 & H2 & H3); [discriminate | reflexivity |].
  assert (E : image_filename (images_folder "ab 1") (Z.of_nat 1 + 1) (image_ext "http://x/b.JPG")
              = "images/ab_1/image_2.JPG") by (vm_compute; reflexivity).
  assert (EF : images_folder "ab 1" = "images/ab_1") by (vm_compute; reflexivity).
  rewrite E in H2, H3. rewrite EF in H3. change (Z.of_nat 1 + 1) with 2 in H3.
  split; [rewrite H1; vm_compute; reflexivity|]. split; [exact H2|].
  rewrite H3. vm_compute. intros [H|[H|[H|[H|[]]]]]; discriminate H.
Defined.

Lemma has_char_app (ch : Ascii.ascii) (a b : string) :
  has_char ch (a +:+ b) = has_char ch a || has_char ch b.
Proof. induction a as [|c t IH]; simpl; [reflexivity|rewrite IH, orb_assoc; reflexivity]. Qed.

Lemma split_ws_aux_tokens (s : string) :
  forall cur tok, (forall ch, py_space ch = true -> has_char ch cur = false) ->
  In tok (split_ws_aux cur s) ->
  tok <> "" /\ (forall ch, py_space ch = true -> has_char ch tok = false) /\
  (forall ch, has_char ch tok = true -> has_char ch cur = true \/ has_char ch s = true).
Proof.
  induction s as [|c t IH]; intros cur tok Hcur Htok; simpl in Htok.
  - destruct (String.eqb cur "") eqn:E; [destruct Htok|].
    destruct Htok as [<-|[]]. apply String.eqb_neq in E. auto.
  - destruct (py_space c) eqn:Hc.
    + apply in_app_or in Htok as [Htok|Htok].
      * destruct (String.eqb cur "") eqn:E; [destruct Htok|].
        destruct Htok as [<-|[]]. apply String.eqb_neq in E. auto.
      * destruct (IH "" tok (fun _ _ => eq_refl) Htok) as (H1 & H2 & H3).
        split; [exact H1|split; [exact H2|]]. intros ch Hch.
        destruct (H3 ch Hch) as [H|H]; [discriminate|]. right. simpl. rewrite H. apply orb_true_r.
    + assert (Hcur' : forall ch, py_space ch = true ->
                has_char ch (cur +:+ String c EmptyString) = false).
      { intros ch Hch. rewrite has_char_app, (Hcur ch Hch). simpl.
        destruct (Ascii.eqb c ch) eqn:E; [|reflexivity].
        apply Ascii.eqb_eq in E. subst. congruence. }
      destruct (IH _ tok Hcur' Htok) as (H1 & H2 & H3).
      split; [exact H1|split; [exact H2|]]. intros ch Hch.
      destruct (H3 ch Hch) as [H|H].
      * rewrite has_char_app in H. apply orb_true_iff in H as [H|H]; [left; exact H|].
        right. simpl in H |- *. rewrite orb_false_r in H. rewrite H. reflexivity.
      * right. simpl. rewrite H. apply orb_true_r.
Qed.

Lemma split_ws_aux_cur_nonempty (t : string) :
  forall cur, cur <> "" -> split_ws_aux cur t <> [].
Proof.
  induction t as [|c t IH]; intros cur Hcur; simpl.
  - destruct (String.eqb cur "") eqn:E; [apply String.eqb_eq in E; contradiction|discriminate].
  - destruct (py_space c).
    + destruct (String.eqb cur "") eqn:E; [apply String.eqb_eq in E; contradiction|discriminate].
    + apply IH. destruct cur; discriminate.
Qed.

Lemma split_ws_nil (s : string) : split_ws s = [] -> py_strip s = "".
Proof.
  unfold split_ws, py_strip. induction s as [|c t IH]; simpl; [reflexivity|].
  destruct (py_space c).
  - simpl. exact IH.
  - intros H. exfalso. exact (split_ws_aux_cur_nonempty t (String c "") ltac:(discriminate) H).
Qed.

Lemma py_rstrip_chars (ch : Ascii.ascii) (s : string) :
  has_char ch (py_rstrip s) = true -> has_char ch s = true.
Proof.
  induction s as [|c t IH]; simpl; [auto|].
  destruct (py_rstrip t) as [|a b] eqn:Ht.
  - destruct (py_space c); simpl; [discriminate|]. rewrite orb_false_r. intros ->. reflexivity.
  - simpl. intros H. apply orb_true_iff in H as [->|H]; [reflexivity|].
    rewrite (IH H). apply orb_true_r.
Qed.

Lemma py_strip_chars (ch : Ascii.ascii) (s : string) :
  has_char ch (py_strip s) = true -> has_char ch s = true.
Proof.
  unfold py_strip. intros H. apply py_rstrip_chars in H. revert H.
  induction s as [|c t IH]; simpl; [auto|].
  destruct (py_space c); [intros H; rewrite (IH H); apply orb_true_r|auto].
Qed.

(** [_best_url_from_srcset] gives [None] exactly when the attribute is
    missing or each of its comma-separated entries is blank; otherwise it
    gives the first whitespace-separated token of the last non-blank
    entry, a non-empty text with no whitespace and no comma. *)
Theorem best_url_from_srcset_spec (s : string) :
  best_url_from_srcset None = None /\
  (best_url_from_srcset (Some s) = None <->
   forall p, In p (split_on ","%char s) -> py_strip p = "") /\
  (forall u, best_url_from_srcset (Some s) = Some u ->
     u <> "" /\ has_char ","%char u = false /\
     (forall ch, py_space ch = true -> has_char ch u = false) /\
     exists pre p rest,
       List.filter (fun p => negb (String.eqb (py_strip p) "")) (split_on ","%char s) =
         pre ++ [p] /\
       split_ws p = u :: rest).
Proof.
  split; [reflexivity|].
  unfold best_url_from_srcset.
  destruct (String.eqb s "") eqn:Es.
  - apply String.eqb_eq in Es. subst s. split.
    + split; [intros _ p [<-|[]]; reflexivity|reflexivity].
    + intros u H. discriminate.
  - set (kept := List.filter (fun p => negb (String.eqb (py_strip p) "")) (split_on ","%char s)).
    assert (Hkept : forall p, In p kept -> In p (split_on ","%char s) /\ py_strip p <> "").
    { intros p Hp. apply filter_In in Hp as [Hp Hne].
      apply negb_true_iff, String.eqb_neq in Hne. auto. }
    destruct (List.rev kept) as [|q rq] eqn:Hr.
    + assert (Hnil : kept = []) by (apply (f_equal (@List.rev string)) in Hr;
                                    rewrite List.rev_involutive in Hr; exact Hr).
      assert (Hall : forall p, In p (split_on ","%char s) -> py_strip p = "").
      { intros p Hp. destruct (String.eqb (py_strip p) "") eqn:E; [apply String.eqb_eq; exact E|].
        exfalso. assert (Hin : In p kept) by (apply filter_In; rewrite E; auto).
        rewrite Hnil in Hin. destruct Hin. }
      rewrite <- map_rev, Hr. simpl. split; [split; [auto|reflexivity]|discriminate].
    + assert (Hq : In q kept) by (apply in_rev; rewrite Hr; left; reflexivity).
      destruct (Hkept q Hq) as [Hqs Hqne].
      assert (Hlast : exists pre, kept = pre ++ [q]).
      { exists (List.rev rq). apply (f_equal (@List.rev string)) in Hr.
        rewrite List.rev_involutive in Hr. rewrite Hr. reflexivity. }
      destruct (split_ws (py_strip q)) as [|tok rest] eqn:Hsq.
      { exfalso. rewrite split_ws_strip in Hsq. exact (Hqne (split_ws_nil q Hsq)). }
      rewrite <- map_rev, Hr. simpl. rewrite Hsq. split.
      * split; [discriminate|]. intros Hall. exfalso. exact (Hqne (Hall q Hqs)).
      * intros u Hu. injection Hu as <-.
        destruct (split_ws_aux_tokens (py_strip q) "" tok (fun _ _ => eq_refl))
          as (T1 & T2 & T3); [unfold split_ws in Hsq; rewrite Hsq; left; reflexivity|].
        split; [exact T1|split; [|split; [exact T2|]]].
        -- apply not_true_is_false. intros Hc. destruct (T3 _ Hc) as [H|H]; [discriminate|].
           apply py_strip_chars in H.
           destruct (split_on_pieces ","%char s q Hqs) as [Hnc _]. congruence.
        -- destruct Hlast as [pre Hpre]. exists pre, q, rest. split; [exact Hpre|].
           rewrite <- split_ws_strip. exact Hsq.
Qed.

Lemma collect_go_spec (elems : list img_elem) :
  forall seen,
    NoDup (collect_image_urls_go seen elems) /\
    (forall u, In u (collect_image_urls_go seen elems) ->
       ~ In u seen /\ String.prefix "http" u = true /\
       exists e, In e elems /\ img_candidate e = Some u) /\
    (forall e u, In e elems -> img_candidate e = Some u -> String.prefix "http" u = true ->
       In u seen \/ In u (collect_image_urls_go seen elems)).
Proof.
  induction elems as [|e rest IH]; intros seen; simpl.
  - split; [constructor|split; [intros u []|intros e u []]].
  - destruct (img_candidate e) as [v|] eqn:Hv.
    + destruct (negb (String.eqb v "") && String.prefix "http" v &&
                negb (existsb (String.eqb v) seen)) eqn:Hc.
      * apply andb_true_iff in Hc as [Hc Hnew]. apply andb_true_iff in Hc as [_ Hhttp].
        apply negb_true_iff in Hnew.
        assert (Hnotin : ~ In v seen).
        { intros Hin. assert (existsb (String.eqb v) seen = true) as Ht
            by (apply existsb_exists; exists v; split; [exact Hin|apply String.eqb_refl]).
          congruence. }
        destruct (IH (seen ++ [v])) as (H1 & H2 & H3).
        split; [|split].
        -- constructor; [|exact H1]. intros Hin. apply list_elem_of_In in Hin.
           destruct (H2 v Hin) as [Hn _]. apply Hn. apply in_or_app. right. left. reflexivity.
        -- intros u [<-|Hu]; [split; [exact Hnotin|split; [exact Hhttp|eauto]]|].
           destruct (H2 u Hu) as (Hn & Hh & e' & He' & Hc').
           split; [intros Hs; apply Hn, in_or_app; left; exact Hs|split; [exact Hh|eauto]].
        -- intros e' u [<-|He'] Hc' Hh.
           ++ rewrite Hv in Hc'. injection Hc' as <-. right. left. reflexivity.
           ++ destruct (H3 e' u He' Hc' Hh) as [Hs|Hs].
              ** apply in_app_or in Hs as [Hs|[<-|[]]]; [left; exact Hs|right; left; reflexivity].
              ** right. right. exact Hs.
      * destruct (IH seen) as (H1 & H2 & H3).
        split; [exact H1|split].
        -- intros u Hu. destruct (H2 u Hu) as (Hn & Hh & e' & He' & Hc').
           split; [exact Hn|split; [exact Hh|eauto]].
        -- intros e' u [<-|He'] Hc' Hh; [|exact (H3 e' u He' Hc' Hh)].
           rewrite Hv in Hc'. injection Hc' as <-. left.
           rewrite Hh, andb_true_r in Hc.
           destruct (String.eqb v "") eqn:E.
           ++ apply String.eqb_eq in E. subst v. discriminate.
           ++ simpl in Hc. apply negb_false_iff, existsb_exists in Hc as (x & Hx & Hxe).
              apply String.eqb_eq in Hxe. subst x. exact Hx.
    + destruct (IH seen) as (H1 & H2 & H3).
      split; [exact H1|split].
      * intros u Hu. destruct (H2 u Hu) as (Hn & Hh & e' & He' & Hc').
        split; [exact Hn|split; [exact Hh|eauto]].
      * intros e' u [<-|He'] Hc' Hh; [congruence|exact (H3 e' u He' Hc' Hh)].
Qed.

(** The URLs [scrape_product_details] downloads have no duplicates, all
    start with [http], each is the chosen URL of one of the image elements
    ([srcset], else [data-srcset], else [src]); and every element whose
    chosen URL starts with [http] has that URL in the list. *)
Theorem collect_image_urls_spec (elems : list img_elem) :
  NoDup (collect_image_urls elems) /\
  (forall u, In u (collect_image_urls elems) ->
     String.prefix "http" u = true /\ exists e, In e elems /\ img_candidate e = Some u) /\
  (forall e u, In e elems -> img_candidate e = Some u -> String.prefix "http" u = true ->
     In u (collect_image_urls elems)).
Proof.
  destruct (collect_go_spec elems []) as (H1 & H2 & H3).
  split; [exact H1|split].
  - intros u Hu. destruct (H2 u Hu) as (_ & Hh & He). auto.
  - intros e u He Hc Hh. destruct (H3 e u He Hc Hh) as [[]|Hs]. exact Hs.
Qed.

(* ------------------------------------------------------------------ *)
(** ** The RealOEM scraper, search results and warm-up *)

Lemma keep_digits_filter (s : string) :
  String.list_ascii_of_string (keep_digits s) = List.filter is_digit (String.list_ascii_of_string s).
Proof.
  induction s as [|c t IH]; simpl; [reflexivity|].
  destruct (is_digit c); simpl; rewrite IH; reflexivity.
Qed.

Lemma find_app_some {A : Type} (p : A -> bool) (l1 l2 : list A) :
  List.find p (l1 ++ l2) = match List.find p l1 with Some x => Some x | None => List.find p l2 end.
Proof.
  induction l1 as [|a t IH]; simpl; [reflexivity|]. destruct (p a); [reflexivity|exact IH].
Qed.

Lemma part_details_fold (dl : list (string * string)) (k : string) :
  forall m : gmap string string,
  fold_left (fun m kv => <[detail_key kv.1 := detail_value kv.2]> m) dl m !! k =
  match List.find (fun kv => String.eqb (detail_key kv.1) k) (rev dl) with
  | Some kv => Some (detail_value kv.2)
  | None => m !! k
  end.
Proof.
  induction dl as [|a t IH]; intros m; simpl; [reflexivity|].
  rewrite IH, find_app_some. destruct (List.find _ (rev t)); [reflexivity|].
  simpl. destruct (String.eqb_spec (detail_key a.1) k) as [<-|Hne].
  - apply lookup_insert_eq.
  - rewrite lookup_insert_ne by congruence. reflexivity.
Qed.

Lemma part_details_lookup (dl : list (string * string)) (k : string) :
  part_details dl !! k = last_detail dl k.
Proof.
  unfold part_details, last_detail. rewrite part_details_fold.
  destruct (List.find _ _); reflexivity.
Qed.

Lemma detail_value_nonempty (dd : string) : detail_value dd <> "".
Proof. unfold detail_value. destruct (String.eqb_spec (py_strip dd) ""); [discriminate|assumption]. Qed.

Lemma or_none_last_detail (dl : list (string * string)) (k : string) :
  or_none (part_details dl !! k) = last_detail dl k.
Proof.
  rewrite part_details_lookup. unfold last_detail.
  destruct (List.find _ _) as [kv|]; simpl; [|reflexivity].
  pose proof (detail_value_nonempty kv.2) as H.
  destruct (detail_value kv.2); [contradiction|reflexivity].
Qed.

Lemma has_char_py_strip_false (ch : Ascii.ascii) (s : string) :
  has_char ch s = false -> has_char ch (py_strip s) = false.
Proof.
  intros H. destruct (has_char ch (py_strip s)) eqn:E; [|reflexivity].
  apply py_strip_chars in E. congruence.
Qed.

Lemma vehicle_tags_no_colon (t : string) : has_char ":"%char (vehicle_tags_of t) = false.
Proof.
  unfold vehicle_tags_of. destruct (has_char ":"%char (py_strip t)) eqn:E; [|exact E].
  apply has_char_py_strip_false.
  apply (split_on_pieces ":"%char (py_strip t)).
  apply hd_in, split_on_nonempty.
Qed.

Lemma substring_prefix (ch : Ascii.ascii) (n : nat) (x : string) :
  (has_char ch (String.substring 0 n x) = true -> has_char ch x = true) /\
  (String.length (String.substring 0 n x) <= n)%nat.
Proof.
  revert n. induction x as [|c t IH]; intros n; destruct n as [|n]; simpl; try (split; [intros Hc; discriminate Hc|lia]).
  destruct (IH n) as [H1 H2]. split; [|lia].
  intros H. apply orb_true_iff in H as [->|H]; [reflexivity|rewrite (H1 H); apply orb_true_r].
Qed.

Lemma error_report_shape (ty msg : string) :
  exists m, error_report ty msg = ty +:+ ": " +:+ m /\
    has_char "010"%char m = false /\ (String.length m <= 200)%nat.
Proof.
  exists (String.substring 0 200 (List.hd "" (split_on "010"%char msg))).
  split; [reflexivity|].
  destruct (substring_prefix "010"%char 200 (List.hd "" (split_on "010"%char msg))) as [H1 H2].
  split; [|exact H2].
  apply not_true_iff_false. intros E. apply H1 in E. rewrite (proj1 (split_on_pieces "010"%char msg _ (hd_in _ (split_on_nonempty _ _)))) in E.
  discriminate.
Qed.

(** The RealOEM scraper searches for the decimal digits of the barcode,
    in order, and nothing else: a barcode without digits gives the
    invalid-barcode failure before any page is opened; otherwise the first
    page opened is [partxref?q=<digits>], and the only other page it may
    open is the [href] of the first vehicle link. *)
Theorem realoem_navigation (site : realoem_site) (bc : string) :
  String.list_ascii_of_string (keep_digits bc) = List.filter is_digit (String.list_ascii_of_string bc) /\
  (keep_digits bc = "" ->
     scrape_realoem_barcode site bc = ([], ROFail "Invalid barcode - no numeric digits found")) /\
  (keep_digits bc <> "" ->
     fst (scrape_realoem_barcode site bc) = [Some (realoem_search_url (keep_digits bc))] \/
     exists text href post, site_links site = (text, href) :: post /\
       fst (scrape_realoem_barcode site bc) = [Some (realoem_search_url (keep_digits bc)); href]).
Proof.
  split; [apply keep_digits_filter|]. split.
  - intros H. unfold scrape_realoem_barcode. rewrite H. reflexivity.
  - intros H. unfold scrape_realoem_barcode.
    destruct (String.eqb_spec (keep_digits bc) "") as [E|_]; [contradiction|].
    repeat case_match; simplify_eq/=;
      first [left; reflexivity | right; do 3 eexists; split; reflexivity].
Qed.

(** When RealOEM's error box says the part is "not found" (in any letter
    case), [_run_scrape] answers [success=True], with part number
    [NOT FOUND], the box's text as description, no price, dates or weight
    and no vehicles. *)
Theorem realoem_not_found_success (site : realoem_site) (bc t : string) :
  keep_digits bc <> "" -> site_search_nav site = None -> site_error_div site = Some t ->
  str_contains "not found" (lower (py_strip t)) = true ->
  run_scrape_realoem site bc =
    {| ro_success := true; ro_barcode := bc; ro_scraper := "realoem";
       ro_data := Some (ROData "NOT FOUND" (py_strip t) None None None None 0 None);
       ro_error := None |}.
Proof.
  intros Hd Hnav Hdiv Hnf. unfold run_scrape_realoem, scrape_realoem_barcode.
  destruct (String.eqb_spec (keep_digits bc) "") as [E|_]; [contradiction|].
  rewrite Hnav, Hdiv. simpl. rewrite Hnf. reflexivity.
Qed.

(** Every RealOEM response of [_run_scrape] either succeeds with data and
    no error, or fails with no data and one of three errors: the
    invalid-barcode message (only for a barcode without digits), the
    content-failed message, or [<exception type>: <text>] where the text is
    a single line of at most 200 characters. *)
Theorem realoem_response_shape (site : realoem_site) (bc : string) :
  ro_barcode (run_scrape_realoem site bc) = bc /\
  ro_scraper (run_scrape_realoem site bc) = "realoem" /\
  ((ro_success (run_scrape_realoem site bc) = true /\
    ro_error (run_scrape_realoem site bc) = None /\
    exists d, ro_data (run_scrape_realoem site bc) = Some d /\ forall e, d <> ROFail e) \/
   (ro_success (run_scrape_realoem site bc) = false /\
    ro_data (run_scrape_realoem site bc) = None /\
    exists e, ro_error (run_scrape_realoem site bc) = Some e /\
      ((keep_digits bc = "" /\ e = "Invalid barcode - no numeric digits found") \/
       e = "Content failed to load (timeout or popup blocking)" \/
       exists ty m, e = ty +:+ ": " +:+ m /\
         has_char "010"%char m = false /\ (String.length m <= 200)%nat))).
Proof.
  unfold run_scrape_realoem.
  destruct (snd (scrape_realoem_barcode site bc)) as [e|pn d pr fr to_ we n tags] eqn:E.
  - simpl. split; [reflexivity|]. split; [reflexivity|]. right.
    split; [reflexivity|]. split; [reflexivity|]. exists e. split; [reflexivity|].
    unfold scrape_realoem_barcode in E.
    destruct (String.eqb_spec (keep_digits bc) "") as [Hk|_].
    { left. simpl in E. split; [exact Hk|congruence]. }
    repeat case_match; simplify_eq/=;
      first [ right; left; reflexivity
            | right; right;
              match goal with
              | |- context [error_report ?a ?b] =>
                  destruct (error_report_shape a b) as [m Hm]; exists a, m; exact Hm
              end ].
  - simpl. split; [reflexivity|]. split; [reflexivity|]. left.
    split; [reflexivity|]. split; [reflexivity|]. eexists. split; [reflexivity|discriminate].
Qed.

(** A RealOEM data dict is either the not-found dict, or it takes the part
    number and description from the page's [h1] and [h2], counts every
    vehicle link read, takes price, from, to and weight from the last
    details row of that name (a blank value read as [-]), and its vehicle
    tags, when present, are non-empty and contain no colon. *)
Theorem realoem_data_fields (site : realoem_site) (bc pn d : string)
    (pr fr to_ we tags : option string) (n : nat) :
  snd (scrape_realoem_barcode site bc) = ROData pn d pr fr to_ we n tags ->
  (pn = "NOT FOUND" /\ pr = None /\ fr = None /\ to_ = None /\ we = None /\
   n = 0%nat /\ tags = None /\ exists t, site_error_div site = Some t /\ d = py_strip t) \/
  (site_h1 site = Some pn /\ site_h2 site = Some d /\ n = length (site_links site) /\
   pr = last_detail (site_dl site) "Price" /\ fr = last_detail (site_dl site) "From" /\
   to_ = last_detail (site_dl site) "To" /\ we = last_detail (site_dl site) "Weight" /\
   forall x, tags = Some x -> x <> "" /\ has_char ":"%char x = false).
Proof.
  unfold scrape_realoem_barcode.
  destruct (String.eqb (keep_digits bc) ""); [discriminate|].
  destruct (site_search_nav site) as [[ty msg]|]; [discriminate|].
  destruct (site_error_div site) as [t|] eqn:Ediv.
  1: destruct (str_contains "not found" (lower (py_strip t))).
  1: { simpl. intros H. injection H as <- <- <- <- <- <- <- <-. left.
       repeat split; try reflexivity. exists t. split; reflexivity. }
  all: destruct (site_h1 site) as [h1|] eqn:E1; [|discriminate].
  all: destruct (site_h2 site) as [h2|] eqn:E2; [|discriminate].
  all: rewrite !or_none_last_detail.
  all: destruct (site_links site) as [|[text href] post] eqn:El.
  all: try (destruct (site_vehicle_nav site) as [[ty msg]|]; [discriminate|]).
  all: simpl; intros H; injection H as <- <- <- <- <- <- <- <-; right.
  all: do 7 (split; [first [reflexivity|assumption]|]).
  all: intros xt Hx.
  all: try discriminate Hx.
  all: match type of Hx with
       | (if String.eqb ?v "" then _ else _) = _ =>
           destruct (String.eqb_spec v "") as [Hv|Hv]; [discriminate|];
           injection Hx as <-; split; [exact Hv|]
       end.
  all: destruct (site_first_li site); [apply vehicle_tags_no_colon|reflexivity].
Qed.

Lemma realoem_not_found_success_witness :
  run_scrape_realoem
    {| site_search_nav := None; site_error_div := Some " Part Not Found ";
       site_h1 := None; site_h2 := None; site_dl := []; site_links := [];
       site_vehicle_nav := None; site_first_li := None |} "3411 686-0912" =
  {| ro_success := true; ro_barcode := "3411 686-0912"; ro_scraper := "realoem";
     ro_data := Some (ROData "NOT FOUND" "Part Not Found" None None None None 0 None);
     ro_error := None |}.
Proof.
  rewrite (realoem_not_found_success _ _ " Part Not Found ");
    [ vm_compute; reflexivity | vm_compute; discriminate | reflexivity | reflexivity
    | vm_compute; reflexivity ].
Defined.

Lemma realoem_data_fields_witness :
  snd (scrape_realoem_barcode realoem_sample_site "5111-7379530") =
    ROData "51117379530" "Bracket" (Some "13.10") None None (Some "-") 2 (Some "E90 320i") /\
  (("51117379530" = "NOT FOUND" /\ Some "13.10" = None /\ (None : option string) = None /\
    (None : option string) = None /\ Some "-" = None /\ 2%nat = 0%nat /\
    Some "E90 320i" = None /\
    exists t, site_error_div realoem_sample_site = Some t /\ "Bracket" = py_strip t) \/
   (site_h1 realoem_sample_site = Some "51117379530" /\
    site_h2 realoem_sample_site = Some "Bracket" /\
    2%nat = length (site_links realoem_sample_site) /\
    Some "13.10" = last_detail (site_dl realoem_sample_site) "Price" /\
    (None : option string) = last_detail (site_dl realoem_sample_site) "From" /\
    (None : option string) = last_detail (site_dl realoem_sample_site) "To" /\
    Some "-" = last_detail (site_dl realoem_sample_site) "Weight" /\
    forall x, Some "E90 320i" = Some x -> x <> "" /\ has_char ":"%char x = false)).
Proof.
  split; [vm_compute; reflexivity|].
  apply (realoem_data_fields realoem_sample_site "5111-7379530").
  vm_compute. reflexivity.
Defined.

Lemma string_app_nil_r (s : string) : s +:+ "" = s.
Proof.
  induction s as [|c t IH]; [reflexivity|].
  change (String c t +:+ "") with (String c (t +:+ "")). rewrite IH. reflexivity.
Qed.

Lemma split_on_hd_prefix (c : Ascii.ascii) (s : string) :
  has_char c (List.hd "" (split_on c s)) = false /\
  exists r, s = List.hd "" (split_on c s) +:+ r /\ (r = "" \/ exists r', r = String c r').
Proof.
  induction s as [|c0 t IH]; simpl.
  - split; [reflexivity|]. exists "". split; [reflexivity|left; reflexivity].
  - destruct (Ascii.eqb_spec c0 c) as [->|Hne].
    + split; [reflexivity|]. exists (String c t). split; [reflexivity|right; eexists; reflexivity].
    + destruct (split_on c t) as [|x rest] eqn:E; [exfalso; exact (split_on_nonempty c t E)|].
      simpl in *. destruct IH as [Hx [r [Hr Hr']]].
      split; [rewrite Hx, orb_false_r; apply Ascii.eqb_neq; exact Hne|].
      exists r. split; [rewrite Hr; reflexivity|exact Hr'].
Qed.

(** [get_first_product_link] gives [None] when neither selector finds a
    listing item; a link it gives comes from the first item found, never
    contains [#], and is the [href] (or [data-link]) of one of that item's
    links cut before its first [#]. *)
Theorem get_first_product_link_spec (listing_items alt_items : list listing_item) :
  (listing_items = [] -> alt_items = [] -> get_first_product_link listing_items alt_items = None) /\
  (forall h, get_first_product_link listing_items alt_items = Some h ->
     has_char "#"%char h = false /\
     exists first_item others l raw r,
       (listing_items = first_item :: others \/
        (listing_items = [] /\ alt_items = first_item :: others)) /\
       In (Some l) [item_name first_item; item_alt first_item; item_a first_item] /\
       py_or (link_href l) (link_data_link l) = Some raw /\
       raw = h +:+ r /\ (r = "" \/ exists r', r = String "#"%char r')).
Proof.
  split.
  - intros -> ->. reflexivity.
  - intros h. unfold get_first_product_link.
    set (items := match listing_items with [] => alt_items | _ => listing_items end).
    assert (Hitems : forall it rest, items = it :: rest ->
              listing_items = it :: rest \/ (listing_items = [] /\ alt_items = it :: rest)).
    { intros it rest. unfold items. destruct listing_items; [right; split; auto|left; auto]. }
    destruct items as [|it rest]; [discriminate|].
    specialize (Hitems it rest eq_refl).
    set (tl := match item_name it with Some l => Some l | None => _ end).
    assert (Htl : forall l, tl = Some l -> In (Some l) [item_name it; item_alt it; item_a it]).
    { intros l. unfold tl. destruct (item_name it) as [l0|]; [intros [= ->]; left; reflexivity|].
      destruct (item_alt it) as [l0|]; [intros [= ->]; right; left; reflexivity|].
      intros ->. right; right; left; reflexivity. }
    destruct tl as [l|]; [|discriminate].
    specialize (Htl l eq_refl).
    destruct (py_or (link_href l) (link_data_link l)) as [raw|] eqn:Eraw; [|discriminate].
    destruct (split_on_hd_prefix "#"%char raw) as [Hh [r [Hr Hr']]].
    destruct (has_char "#"%char raw) eqn:Ehas; intros [= <-].
    + split; [exact Hh|]. exists it, rest, l, raw, r. auto.
    + split; [exact Ehas|]. exists it, rest, l, raw, "".
      repeat split; auto. rewrite string_app_nil_r. reflexivity.
Qed.

Lemma warmups_handled (calls : list (bool * bool)) (i : BrowserInstance) :
  autodoc_cookie_handled i = true -> warmups calls i = (i, []).
Proof.
  intros H. induction calls as [|[nav_ok clicked] rest IH]; simpl; [reflexivity|].
  unfold warmup_autodoc. rewrite H, IH. reflexivity.
Qed.

(** Repeated [warmup_autodoc] calls on one instance open the autodoc home
    page once per call up to and including the first call whose
    navigation returns; that call marks the cookie consent handled, and
    every later call does nothing.  Calls whose navigation raises leave the
    instance unchanged. *)
Theorem warmup_home_visits (i : BrowserInstance) (fails rest : list (bool * bool)) (clicked : bool) :
  autodoc_cookie_handled i = false ->
  Forall (fun c => c.1 = false) fails ->
  warmups fails i = (i, repeat autodoc_home (length fails)) /\
  warmups (fails ++ (true, clicked) :: rest) i =
    (set_autodoc_cookie_handled true i, repeat autodoc_home (S (length fails))).
Proof.
  intros Hi Hf. induction Hf as [|[nav_ok c] fails' Hc Hf IH]; simpl in *.
  - split; [reflexivity|]. unfold warmup_autodoc, handle_cookies. rewrite Hi. simpl.
    rewrite warmups_handled by reflexivity. reflexivity.
  - subst nav_ok. unfold warmup_autodoc. rewrite Hi. destruct IH as [IH1 IH2].
    rewrite IH1, IH2. split; reflexivity.
Qed.

Lemma warmup_home_visits_witness :
  warmups [(false, false); (false, true)] (new_instance 1 true 0) =
    (new_instance 1 true 0, [autodoc_home; autodoc_home]) /\
  warmups [(false, false); (false, true); (true, false); (true, true); (false, false)]
    (new_instance 1 true 0) =
    (set_autodoc_cookie_handled true (new_instance 1 true 0),
     [autodoc_home; autodoc_home; autodoc_home]).
Proof.
  apply (warmup_home_visits (new_instance 1 true 0) [(false, false); (false, true)]
           [(true, true); (false, false)] false); [reflexivity|].
  repeat constructor.
Defined.
